(** * WebSocketClient: a shallow embedding of [src/lib/websocket/WebSocketClient.ts]

    The class [WebSocketClient] is embedded as state transformers over a
    [World]: the fields of the object ([Client]), the part of the host runtime
    the object talks to ([Host]: the sockets it created, the pending timers,
    and the trace of what left the object) and the immutable surroundings
    ([Env]: configuration, session identifier, clock, and the two places where
    the runtime may throw).

    Conventions.
    - JavaScript numbers: a delay or the multiplier is a [number], the value
      of a double (an exact rational, [Infinity], [NegInfinity] or [NaN]; the
      sign of zero is not kept). [mul] is the binary64 product (exact product
      rounded to nearest, ties to even, with overflow, gradual underflow and
      the special values), [Math_min] is [Math.min], and [Math.pow], which
      the language leaves implementation-approximated, is a function of the
      host ([Math_pow] of [Env]).
    - The two limits [reconnect.maxAttempts] and [messageQueue.maxSize] are
      integers ([Z]), as are the reconnect counter and the clock; the model
      covers the configurations whose limits are integers.
    - A timer handle is a positive [nat], so that a handle is truthy exactly
      when the field holding it is [Some _].
    - In the state transformers a dispatch loop over a handler set is one
      entry of the trace ([ConnectionChange], [MessageEvt], [ErrorEvt]); the
      three sets themselves, the subscriptions and [destroy()] are added on
      top in [Instance]. Handlers do not call back into the client.
    - [console.*] calls and the construction of the URL are left out: they do
      not touch the object. *)

From Stdlib Require Import String List ZArith QArith Qpower Qround Qminmax.
From Stdlib Require Import Bool Lia Lqa Floats.
Import ListNotations.
Open Scope string_scope.
Open Scope list_scope.
Open Scope Z_scope.

(** ** JavaScript numbers *)

(** The value of a double. Every double is one of these; the sign of zero,
    which the client cannot observe, is dropped. *)
Inductive number : Type :=
| Finite (q : Q)
| Infinity
| NegInfinity
| NaN.

Coercion Finite : Q >-> number.

Definition pow2 (k : Z) : Q := (2 ^ k)%Q.

(** [floor (log2 q)] of a positive rational. *)
Definition ilog2 (q : Q) : Z :=
  let k := Z.log2 (Qnum q) - Z.log2 (Zpos (Qden q)) in
  if Qle_bool (pow2 k) q then k else k - 1.

(** The nearest integer, a tie going to the even one. *)
Definition roundHalfEven (q : Q) : Z :=
  let f := Qfloor q in
  match (q - inject_Z f ?= 1 # 2)%Q with
  | Lt => f
  | Gt => f + 1
  | Eq => if Z.even f then f else f + 1
  end.

(** The exponent of the unit in the last place of a binary64 value near
    [q > 0]: 53 significant bits, and never below the subnormal spacing
    [2^-1074]. *)
Definition quantum (q : Q) : Z := Z.max (ilog2 q) (-1022) - 52.

(** The multiple of [2^quantum q] nearest to [q > 0], ties to even. *)
Definition nearest (q : Q) : Q :=
  (inject_Z (roundHalfEven (q / pow2 (quantum q))) * pow2 (quantum q))%Q.

(** binary64 rounding of a positive rational; a rounded value of [2^1024]
    or more overflows. *)
Definition roundPositive (q : Q) : number :=
  if Qle_bool (pow2 1024) (nearest q) then Infinity
  else Finite (Qred (nearest q)).

(** Unary minus. *)
Definition neg (x : number) : number :=
  match x with
  | Finite q => Finite (- q)
  | Infinity => NegInfinity
  | NegInfinity => Infinity
  | NaN => NaN
  end.

(** binary64 rounding (roundTiesToEven) of an exact result. *)
Definition round64 (q : Q) : number :=
  match (q ?= 0)%Q with
  | Eq => Finite 0
  | Gt => roundPositive q
  | Lt => neg (roundPositive (- q))
  end.

(** [x <= y] of two numbers: false as soon as one of them is [NaN]. *)
Definition num_leb (x y : number) : bool :=
  match x, y with
  | NaN, _ | _, NaN => false
  | NegInfinity, _ | _, Infinity => true
  | Finite a, Finite b => Qle_bool a b
  | _, _ => false
  end.

Definition num_le (x y : number) : Prop := num_leb x y = true.

Definition isFinite (x : number) : bool :=
  match x with
  | Finite _ => true
  | _ => false
  end.

(** [q * Infinity] *)
Definition timesInfinity (q : Q) : number :=
  match (q ?= 0)%Q with
  | Gt => Infinity
  | Lt => NegInfinity
  | Eq => NaN
  end.

(** [x * y] *)
Definition mul (x y : number) : number :=
  match x, y with
  | NaN, _ | _, NaN => NaN
  | Finite a, Finite b => round64 (a * b)
  | Finite a, Infinity | Infinity, Finite a => timesInfinity a
  | Finite a, NegInfinity | NegInfinity, Finite a => neg (timesInfinity a)
  | Infinity, Infinity | NegInfinity, NegInfinity => Infinity
  | Infinity, NegInfinity | NegInfinity, Infinity => NegInfinity
  end.

(** [Math.min(x, y)] *)
Definition Math_min (x y : number) : number :=
  match x, y with
  | NaN, _ | _, NaN => NaN
  | _, _ => if num_leb x y then x else y
  end.

(** A [Math.pow] for integer exponents that returns the correctly rounded
    power; the one the example environments run on. *)
Definition pow64 (b : number) (k : Z) : number :=
  match b with
  | Finite q =>
      if Qeq_bool q 0 && (k <? 0) then Infinity else round64 (q ^ k)
  | Infinity =>
      if k =? 0 then Finite 1 else if 0 <? k then Infinity else Finite 0
  | NegInfinity =>
      if k =? 0 then Finite 1
      else if k <? 0 then Finite 0
      else if Z.odd k then NegInfinity else Infinity
  | NaN => if k =? 0 then Finite 1 else NaN
  end.

(** The value of a machine double, to compare [mul] with the hardware
    product. *)
Definition of_float (f : float) : number :=
  match Prim2SF f with
  | S754_zero _ => Finite 0
  | S754_infinity false => Infinity
  | S754_infinity true => NegInfinity
  | S754_nan => NaN
  | S754_finite s m e =>
      Finite (Qred ((if s then -1 else 1) * inject_Z (Zpos m) * pow2 e))
  end.

Definition same_number (x y : number) : bool :=
  match x, y with
  | Finite a, Finite b => Qeq_bool a b
  | Infinity, Infinity | NegInfinity, NegInfinity | NaN, NaN => true
  | _, _ => false
  end.

(** [mul] and the hardware product agree on the pair [(x, y)]. *)
Definition mul_agrees (p : float * float) : bool :=
  same_number (mul (of_float (fst p)) (of_float (snd p)))
              (of_float (PrimFloat.mul (fst p) (snd p))).

(** Pairs of doubles on which [mul] is compared with the hardware. *)
Module Binary64.
Definition samples : list (float * float) :=
  [ (0x1.999999999999ap-4, 0x1.8p+1)          (* 0.1 * 3 *)
  ; (0x1.f4p+9, 0x1p+1)                        (* 1000 * 2 *)
  ; (0x1.1ccf385ebc8ap+1023, 0x1.1ccf385ebc8ap+1023) (* 1e308 * 1e308 *)
  ; (0x0p+0, infinity)
  ; (neg_infinity, 0x1.8p+1)
  ; (nan, 0x1p+0)
  ; (0x1.87e92154ef7acp-665, 0x1.87e92154ef7acp-665) (* underflow to 0 *)
  ; (0x1.67e9c127b6e74p-532, 0x1.67e9c127b6e74p-532) (* subnormal result *)
  ; (0x0.0000000000001p-1022, 0x1p-1)          (* tie, to even: 0 *)
  ; (0x0.0000000000001p-1022, 0x1.8p+0)        (* tie, to even: 2 ulp *)
  ; (0x0.0000000000001p-1022, 0x1.4p+1)        (* tie, to even: 2 ulp *)
  ; (0x1.fffffffffffffp+1023, 0x1.0000000000001p+0) (* overflow *)
  ; (0x1.fffffffffffffp+1023, 0x1p+0)
  ; (-0x1.a666666666666p+1, 0x1.ecccccccccccdp+2)   (* -3.3 * 7.7 *)
  ; (0x1.199999999999ap+0, 0x1.199999999999ap+0)    (* 1.1 * 1.1 *)
  ; (0x1.3333333333333p-2, 0x1.3333333333333p-2)    (* 0.3 * 0.3 *)
  ; (0x1p-1022, 0x1p-1)
  ; (0x1p-1022, 0x1.fffffffffffffp-1)
  ; (0x1p+53, 0x1.8p+1)
  ; (0x1.0000000000001p+0, 0x1.0000000000001p+0)
  ; (0x1.8p+0, 0x1.8000000000001p+1) ]%float.
End Binary64.

(** ** Data model *)

Definition TimerId := nat.
Definition SocketId := nat.

(** [ConnectionState] of [@/types/websocket], as used by the client. *)
Inductive ConnectionState : Type :=
| Idle | Connecting | Connected | Reconnecting | Disconnected | Error.

Definition ConnectionState_eqb (a b : ConnectionState) : bool :=
  match a, b with
  | Idle, Idle | Connecting, Connecting | Connected, Connected
  | Reconnecting, Reconnecting | Disconnected, Disconnected | Error, Error => true
  | _, _ => false
  end.

Record ConnectionStatus : Type := mkStatus {
  state : ConnectionState;
  error : option string;
  reconnectAttempt : option Z;
  lastConnected : option Z
}.

(** Outbound messages: the two the client builds itself and the caller's. *)
Inductive ClientMessage : Type :=
| InitMessage (session_id : string) (userAgent : string) (timestamp : Z)
| PingMessage (timestamp : Z)
| CallerMessage (type : string) (payload : string).

(** Inbound messages: only [type] is read by the client. *)
Record ServerMessage : Type := mkServerMessage {
  type : string;
  payload : string
}.

Module Reconnect.
Record t : Type := mk {
  enabled : bool;
  maxAttempts : Z;
  initialDelay : number;
  maxDelay : number;
  backoffMultiplier : number
}.
End Reconnect.

Module Heartbeat.
Record t : Type := mk {
  enabled : bool;
  interval : number;
  timeout : number
}.
End Heartbeat.

Module MessageQueue.
Record t : Type := mk {
  enabled : bool;
  maxSize : Z
}.
End MessageQueue.

Record WebSocketConfig : Type := mkConfig {
  reconnect : Reconnect.t;
  heartbeat : Heartbeat.t;
  messageQueueConfig : MessageQueue.t
}.

(** *** The host runtime *)

Inductive ReadyState : Type := CONNECTING | OPEN | CLOSING | CLOSED.

(** A socket made by [connect]: besides the four bound handlers of
    [setupEventHandlers] it carries the once-listener that clears the
    connection timeout armed in the same call. *)
Record Socket : Type := mkSocket {
  readyState : ReadyState;
  clearsOnOpen : TimerId
}.

(** The callbacks the client hands to [setTimeout] and [setInterval]. *)
Inductive TimerKind : Type :=
| ConnectionTimeout   (* connect, 10000 ms *)
| ReconnectTimer      (* handleReconnect *)
| HeartbeatInterval   (* startHeartbeat, repeating *)
| HeartbeatTimeout.   (* armed after each ping *)

Record Timer : Type := mkTimer {
  tid : TimerId;
  kind : TimerKind;
  delay : number
}.

(** What leaves the object. *)
Inductive Obs : Type :=
| ConnectionChange (cs : ConnectionStatus)
| MessageEvt (m : ServerMessage)
| ErrorEvt (e : string)
| Transmit (sock : SocketId) (m : ClientMessage)
| NewWebSocket (sock : SocketId)
| Armed (t : Timer).

Record Client : Type := mkClient {
  ws : option SocketId;
  connectionStatus : ConnectionStatus;
  reconnectAttempts : Z;
  reconnectTimer : option TimerId;
  isIntentionalClose : bool;
  heartbeatTimer : option TimerId;
  heartbeatTimeoutTimer : option TimerId;
  messageQueue : list ClientMessage
}.

Record Host : Type := mkHost {
  sockets : list Socket;        (* socket [i] is the [i]-th one created *)
  timers : list Timer;          (* pending timers *)
  nextTimer : TimerId;
  trace : list Obs              (* oldest first *)
}.

Record Env : Type := mkEnv {
  config : WebSocketConfig;
  sessionId : string;
  navigatorUserAgent : string;
  now : Z;                                   (* new Date() *)
  sendThrows : ClientMessage -> option string; (* JSON.stringify / ws.send *)
  ctorThrows : option string;                (* new WebSocket(url) *)
  Math_pow : number -> Z -> number           (* Math.pow, integer exponent *)
}.

Record World : Type := mkWorld {
  env : Env;
  this : Client;
  host : Host
}.

(** Field updates. *)
Definition set_ws v (w : World) : World :=
  let c := this w in
  mkWorld (env w)
    (mkClient v (connectionStatus c) (reconnectAttempts c) (reconnectTimer c)
       (isIntentionalClose c) (heartbeatTimer c) (heartbeatTimeoutTimer c)
       (messageQueue c))
    (host w).

Definition set_connectionStatus v (w : World) : World :=
  let c := this w in
  mkWorld (env w)
    (mkClient (ws c) v (reconnectAttempts c) (reconnectTimer c)
       (isIntentionalClose c) (heartbeatTimer c) (heartbeatTimeoutTimer c)
       (messageQueue c))
    (host w).

Definition set_reconnectAttempts v (w : World) : World :=
  let c := this w in
  mkWorld (env w)
    (mkClient (ws c) (connectionStatus c) v (reconnectTimer c)
       (isIntentionalClose c) (heartbeatTimer c) (heartbeatTimeoutTimer c)
       (messageQueue c))
    (host w).

Definition set_reconnectTimer v (w : World) : World :=
  let c := this w in
  mkWorld (env w)
    (mkClient (ws c) (connectionStatus c) (reconnectAttempts c) v
       (isIntentionalClose c) (heartbeatTimer c) (heartbeatTimeoutTimer c)
       (messageQueue c))
    (host w).

Definition set_isIntentionalClose v (w : World) : World :=
  let c := this w in
  mkWorld (env w)
    (mkClient (ws c) (connectionStatus c) (reconnectAttempts c) (reconnectTimer c)
       v (heartbeatTimer c) (heartbeatTimeoutTimer c) (messageQueue c))
    (host w).

Definition set_heartbeatTimer v (w : World) : World :=
  let c := this w in
  mkWorld (env w)
    (mkClient (ws c) (connectionStatus c) (reconnectAttempts c) (reconnectTimer c)
       (isIntentionalClose c) v (heartbeatTimeoutTimer c) (messageQueue c))
    (host w).

Definition set_heartbeatTimeoutTimer v (w : World) : World :=
  let c := this w in
  mkWorld (env w)
    (mkClient (ws c) (connectionStatus c) (reconnectAttempts c) (reconnectTimer c)
       (isIntentionalClose c) (heartbeatTimer c) v (messageQueue c))
    (host w).

Definition set_messageQueue v (w : World) : World :=
  let c := this w in
  mkWorld (env w)
    (mkClient (ws c) (connectionStatus c) (reconnectAttempts c) (reconnectTimer c)
       (isIntentionalClose c) (heartbeatTimer c) (heartbeatTimeoutTimer c) v)
    (host w).

Definition set_sockets v (w : World) : World :=
  let h := host w in
  mkWorld (env w) (this w) (mkHost v (timers h) (nextTimer h) (trace h)).

Definition set_timers v (w : World) : World :=
  let h := host w in
  mkWorld (env w) (this w) (mkHost (sockets h) v (nextTimer h) (trace h)).

Definition set_nextTimer v (w : World) : World :=
  let h := host w in
  mkWorld (env w) (this w) (mkHost (sockets h) (timers h) v (trace h)).

Definition emit (o : Obs) (w : World) : World :=
  let h := host w in
  mkWorld (env w) (this w)
    (mkHost (sockets h) (timers h) (nextTimer h) (trace h ++ [o])).

(** *** Host primitives *)

(** [setTimeout] / [setInterval]: a fresh handle, now pending. *)
Definition setTimer (k : TimerKind) (d : number) (w : World) : TimerId * World :=
  let id := nextTimer (host w) in
  let t := mkTimer id k d in
  (id, emit (Armed t)
         (set_nextTimer (S id) (set_timers (timers (host w) ++ [t]) w))).

(** [clearTimeout] / [clearInterval]: the handle is no longer pending. *)
Definition clearTimer (id : TimerId) (w : World) : World :=
  set_timers (filter (fun t => negb (Nat.eqb (tid t) id)) (timers (host w))) w.

Definition isOpen (r : ReadyState) : bool :=
  match r with OPEN => true | _ => false end.

Definition isLive (r : ReadyState) : bool :=
  match r with CONNECTING | OPEN => true | _ => false end.

Fixpoint update_nth {A} (n : nat) (f : A -> A) (l : list A) : list A :=
  match l, n with
  | [], _ => []
  | x :: l', O => f x :: l'
  | x :: l', S n' => x :: update_nth n' f l'
  end.

Definition set_readyState (r : ReadyState) (s : Socket) : Socket :=
  mkSocket r (clearsOnOpen s).

(** [socket.close()]: starts the closing handshake unless already closing or
    closed; the [close] event comes later, from the host. *)
Definition closeSocket (id : SocketId) (w : World) : World :=
  set_sockets
    (update_nth id
       (fun s => if isLive (readyState s) then set_readyState CLOSING s else s)
       (sockets (host w))) w.

(** The socket behind [this.ws], when [this.ws.readyState === WebSocket.OPEN]. *)
Definition openSocket (w : World) : option SocketId :=
  match ws (this w) with
  | Some id =>
      match nth_error (sockets (host w)) id with
      | Some s => if isOpen (readyState s) then Some id else None
      | None => None
      end
  | None => None
  end.

(** [isConnected()] *)
Definition isConnected (w : World) : bool :=
  match openSocket w with Some _ => true | None => false end.

(** [getConnectionStatus()] *)
Definition getConnectionStatus (w : World) : ConnectionStatus :=
  connectionStatus (this w).

(** ** Effects: state and exceptions *)

Inductive Outcome (A : Type) : Type :=
| Returns (a : A)
| Throws (e : string).
Arguments Returns {A} a.
Arguments Throws {A} e.

Definition Eff (A : Type) : Type := World -> Outcome A * World.

Definition ret {A} (a : A) : Eff A := fun w => (Returns a, w).
Definition throw {A} (e : string) : Eff A := fun w => (Throws e, w).
Definition bind {A B} (m : Eff A) (k : A -> Eff B) : Eff B :=
  fun w =>
    match m w with
    | (Returns a, w') => k a w'
    | (Throws e, w') => (Throws e, w')
    end.
Definition lift (f : World -> World) : Eff unit := fun w => (Returns tt, f w).
Definition exec {A} (m : Eff A) (w : World) : World := snd (m w).

Notation "x <- m ;; k" := (bind m (fun x => k))
  (at level 61, m at next level, right associativity).
Notation "m ;;; k" := (bind m (fun _ => k))
  (at level 61, right associativity).

(** ** The methods of the class *)

(** [updateConnectionStatus(state, error?, reconnectAttempt?)] *)
Definition updateConnectionStatus (st : ConnectionState) (err : option string)
    (attempt : option Z) (w : World) : World :=
  let cs :=
    mkStatus st err attempt
      (if ConnectionState_eqb st Connected then Some (now (env w))
       else lastConnected (connectionStatus (this w))) in
  emit (ConnectionChange cs) (set_connectionStatus cs w).

(** [emitError(error)] *)
Definition emitError (e : string) (w : World) : World := emit (ErrorEvt e) w.

(** [queueMessage(message)] *)
Definition queueMessage (message : ClientMessage) (w : World) : World :=
  let q := messageQueue (this w) in
  let q' :=
    if Z.of_nat (List.length q) >=? MessageQueue.maxSize (messageQueueConfig (config (env w)))
    then tl q           (* shift() *)
    else q in
  set_messageQueue (q' ++ [message]) w.

(** [sendMessage(message)] *)
Definition sendMessage (message : ClientMessage) : Eff bool := fun w =>
  match openSocket w with
  | None =>
      if MessageQueue.enabled (messageQueueConfig (config (env w)))
      then (Returns false, queueMessage message w)
      else (Throws "WebSocket not connected and message queue disabled", w)
  | Some sock =>
      match sendThrows (env w) message with
      | None => (Returns true, emit (Transmit sock message) w)
      | Some e => (Returns false, emitError e w)
      end
  end.

(** [queue.forEach(message => this.sendMessage(message))] *)
Fixpoint forEach_sendMessage (queue : list ClientMessage) : Eff unit :=
  match queue with
  | [] => ret tt
  | message :: rest => sendMessage message ;;; forEach_sendMessage rest
  end.

(** [flushMessageQueue()] *)
Definition flushMessageQueue : Eff unit := fun w =>
  match messageQueue (this w) with
  | [] => (Returns tt, w)
  | queue => forEach_sendMessage queue (set_messageQueue [] w)
  end.

(** [stopHeartbeat()] *)
Definition stopHeartbeat (w : World) : World :=
  let w1 :=
    match heartbeatTimer (this w) with
    | Some id => set_heartbeatTimer None (clearTimer id w)
    | None => w
    end in
  match heartbeatTimeoutTimer (this w1) with
  | Some id => set_heartbeatTimeoutTimer None (clearTimer id w1)
  | None => w1
  end.

(** [startHeartbeat()] *)
Definition startHeartbeat (w : World) : World :=
  let w1 := stopHeartbeat w in
  let '(id, w2) :=
    setTimer HeartbeatInterval (Heartbeat.interval (heartbeat (config (env w1)))) w1 in
  set_heartbeatTimer (Some id) w2.

(** [handlePong()] *)
Definition handlePong (w : World) : World :=
  match heartbeatTimeoutTimer (this w) with
  | Some id => set_heartbeatTimeoutTimer None (clearTimer id w)
  | None => w
  end.

(** [calculateBackoffDelay()] *)
Definition calculateBackoffDelay (w : World) : number :=
  let r := reconnect (config (env w)) in
  let delay :=
    mul (Reconnect.initialDelay r)
        (Math_pow (env w) (Reconnect.backoffMultiplier r)
                  (reconnectAttempts (this w) - 1)) in
  Math_min delay (Reconnect.maxDelay r).

(** [handleReconnect()] *)
Definition handleReconnect (w : World) : World :=
  let r := reconnect (config (env w)) in
  if negb (Reconnect.enabled r) || isIntentionalClose (this w) then w
  else if reconnectAttempts (this w) >=? Reconnect.maxAttempts r then
    updateConnectionStatus Error (Some "Max reconnection attempts reached") None w
  else
    let w1 := set_reconnectAttempts (reconnectAttempts (this w) + 1) w in
    let delay := calculateBackoffDelay w1 in
    let '(id, w2) := setTimer ReconnectTimer delay w1 in
    let w3 := set_reconnectTimer (Some id) w2 in
    updateConnectionStatus Reconnecting None (Some (reconnectAttempts (this w3))) w3.

(** [connect()] *)
Definition connect (w : World) : World :=
  match openSocket w with
  | Some _ => w
  | None =>
      let w1 := set_isIntentionalClose false w in
      let w2 := updateConnectionStatus Connecting None None w1 in
      match ctorThrows (env w2) with
      | None =>
          let sock := List.length (sockets (host w2)) in
          let timeout := nextTimer (host w2) in
          let w3 :=
            emit (NewWebSocket sock)
              (set_ws (Some sock)
                 (set_sockets (sockets (host w2) ++ [mkSocket CONNECTING timeout]) w2)) in
          snd (setTimer ConnectionTimeout 10000%Q w3)
      | Some e =>
          let w3 := updateConnectionStatus Error (Some e) None w2 in
          let w4 := emitError e w3 in
          handleReconnect w4
      end
  end.

(** [cleanup()] *)
Definition cleanup (w : World) : World :=
  let w1 := stopHeartbeat w in
  let w2 :=
    match reconnectTimer (this w1) with
    | Some id => set_reconnectTimer None (clearTimer id w1)
    | None => w1
    end in
  match ws (this w2) with
  | Some sock => set_ws None (closeSocket sock w2)
  | None => w2
  end.

(** [disconnect()] *)
Definition disconnect (w : World) : World :=
  let w1 := set_isIntentionalClose true w in
  let w2 := cleanup w1 in
  updateConnectionStatus Disconnected None None w2.

(** [handleOpen()] *)
Definition handleOpen : Eff unit :=
  lift (set_reconnectAttempts 0) ;;;
  lift (updateConnectionStatus Connected None None) ;;;
  (fun w =>
     sendMessage
       (InitMessage (sessionId (env w)) (navigatorUserAgent (env w)) (now (env w))) w) ;;;
  (fun w =>
     if Heartbeat.enabled (heartbeat (config (env w)))
     then lift startHeartbeat w
     else ret tt w) ;;;
  flushMessageQueue.

(** [handleMessage(event)]: [data] is [None] when [JSON.parse(event.data)]
    throws or yields a value without a readable [type]. *)
Definition handleMessage (data : option ServerMessage) (w : World) : World :=
  match data with
  | Some message =>
      if String.eqb (type message) "pong" then handlePong w
      else emit (MessageEvt message) w
  | None => emitError "Failed to parse server message" w
  end.

(** [handleError(event)] *)
Definition handleError (w : World) : World :=
  emitError "WebSocket connection error" w.

(** [handleClose(event)] *)
Definition handleClose (w : World) : World :=
  let w1 := stopHeartbeat w in
  if negb (isIntentionalClose (this w1)) then
    handleReconnect (updateConnectionStatus Reconnecting None None w1)
  else
    updateConnectionStatus Disconnected None None w1.

(** The callback of [connect]'s [setTimeout]. *)
Definition onConnectionTimeout (w : World) : World :=
  if ConnectionState_eqb (state (connectionStatus (this w))) Connecting then
    let w1 :=
      match ws (this w) with
      | Some sock => closeSocket sock w
      | None => w
      end in
    handleReconnect w1
  else w.

(** The callback of [handleReconnect]'s [setTimeout]. *)
Definition onReconnectTimer (w : World) : World := connect w.

(** The callback of the inner [setTimeout] of [startHeartbeat]. *)
Definition onHeartbeatTimeout (w : World) : World :=
  match ws (this w) with
  | Some sock => closeSocket sock w
  | None => w
  end.

(** The callback of [startHeartbeat]'s [setInterval]. *)
Definition onHeartbeatInterval (w : World) : World :=
  if isConnected w then
    let w1 := exec (sendMessage (PingMessage (now (env w)))) w in
    let '(id, w2) :=
      setTimer HeartbeatTimeout (Heartbeat.timeout (heartbeat (config (env w1)))) w1 in
    set_heartbeatTimeoutTimer (Some id) w2
  else w.

(** ** The host driving the object *)

Inductive Event : Type :=
| Call_connect
| Call_disconnect
| Call_sendMessage (m : ClientMessage)
| Socket_open (sock : SocketId)
| Socket_message (sock : SocketId) (data : option ServerMessage)
| Socket_error (sock : SocketId)
| Socket_close (sock : SocketId)
| Timer_fire (id : TimerId).

Definition find_timer (id : TimerId) (w : World) : option Timer :=
  find (fun t => Nat.eqb (tid t) id) (timers (host w)).

Definition runTimer (k : TimerKind) (w : World) : World :=
  match k with
  | ConnectionTimeout => onConnectionTimeout w
  | ReconnectTimer => onReconnectTimer w
  | HeartbeatInterval => onHeartbeatInterval w
  | HeartbeatTimeout => onHeartbeatTimeout w
  end.

(** One turn of the event loop.  An event the host cannot deliver (a timer
    that is not pending, an [open] on a socket that is not connecting, a
    [message] on a socket that is neither open nor closing, any event of a
    closed socket) leaves the world as it is.  On [open] the listeners run in
    the order they were added: [handleOpen], then the once-listener of
    [connect] that clears the connection timeout.  An exception that escapes
    a listener is reported by the host and the remaining listeners still
    run; what the listener did before throwing stays done. *)
Definition step (w : World) (e : Event) : World :=
  match e with
  | Call_connect => connect w
  | Call_disconnect => disconnect w
  | Call_sendMessage m => exec (sendMessage m) w
  | Socket_open sock =>
      match nth_error (sockets (host w)) sock with
      | Some s =>
          match readyState s with
          | CONNECTING =>
              let w1 :=
                set_sockets (update_nth sock (set_readyState OPEN) (sockets (host w))) w in
              clearTimer (clearsOnOpen s) (exec handleOpen w1)
          | _ => w
          end
      | None => w
      end
  | Socket_message sock data =>
      match nth_error (sockets (host w)) sock with
      | Some s =>
          match readyState s with
          | OPEN | CLOSING => handleMessage data w
          | _ => w
          end
      | None => w
      end
  | Socket_error sock =>
      match nth_error (sockets (host w)) sock with
      | Some s =>
          match readyState s with
          | CLOSED => w
          | _ => handleError w
          end
      | None => w
      end
  | Socket_close sock =>
      match nth_error (sockets (host w)) sock with
      | Some s =>
          match readyState s with
          | CLOSED => w
          | _ =>
              handleClose
                (set_sockets
                   (update_nth sock (set_readyState CLOSED) (sockets (host w))) w)
          end
      | None => w
      end
  | Timer_fire id =>
      match find_timer id w with
      | Some t =>
          match kind t with
          | HeartbeatInterval => runTimer HeartbeatInterval w
          | k => runTimer k (clearTimer id w)
          end
      | None => w
      end
  end.

Definition run (w : World) (es : list Event) : World := fold_left step es w.

(** The object right after [new WebSocketClient(config)]. *)
Definition initialClient : Client :=
  mkClient None (mkStatus Idle None None None) 0 None false None None [].

Definition initialHost : Host := mkHost [] [] 1%nat [].

Definition newClient (e : Env) : World := mkWorld e initialClient initialHost.

(** ** Derived notions used in the statements *)

(** What [queueMessage] does to the array, seen on its own. *)
Definition enqueued (maxSize : Z) (q : list ClientMessage) (m : ClientMessage) :=
  (if Z.of_nat (List.length q) >=? maxSize then tl q else q) ++ [m].

Definition queueLimit (w : World) : Z :=
  MessageQueue.maxSize (messageQueueConfig (config (env w))).

Definition queueEnabled (w : World) : bool :=
  MessageQueue.enabled (messageQueueConfig (config (env w))).


(** The delay [calculateBackoffDelay] returns when the counter stands at [n]. *)
Definition backoffDelayAt (w : World) (n : Z) : number :=
  calculateBackoffDelay (set_reconnectAttempts n w).

(** The host's [Math.pow] is non-decreasing in the exponent at base [b], from
    exponent 0 on. *)
Definition PowMonotoneAt (e : Env) (b : number) : Prop :=
  forall j k : Z,
    0 <= j <= k -> num_le (Math_pow e b j) (Math_pow e b k).

(** What one [sendMessage] over the open socket [sock] leaves in the trace:
    the frame, or the error event when the [try] block throws. *)
Definition sendOutcome (e : Env) (sock : SocketId) (m : ClientMessage) : Obs :=
  match sendThrows e m with
  | None => Transmit sock m
  | Some err => ErrorEvt err
  end.

Definition emitAll (os : list Obs) (w : World) : World :=
  fold_left (fun w' o => emit o w') os w.

(** The sockets that are connecting or open. *)
Definition liveTransports (w : World) : list Socket :=
  filter (fun s => isLive (readyState s)) (sockets (host w)).

(** The pending timers that will call [connect()] when they fire. *)
Definition pendingReconnects (w : World) : list Timer :=
  filter (fun t => match kind t with ReconnectTimer => true | _ => false end)
         (timers (host w)).

(** Events raised by the host, as opposed to calls of the public methods. *)
Definition hostEvent (e : Event) : bool :=
  match e with
  | Call_connect | Call_disconnect | Call_sendMessage _ => false
  | _ => true
  end.

(** The transport behind [this.ws] closes. *)
Definition closeCurrent (w : World) : World :=
  match ws (this w) with
  | Some sock => step w (Socket_close sock)
  | None => w
  end.

(** The timer held in [this.reconnectTimer] fires. *)
Definition fireReconnect (w : World) : World :=
  match reconnectTimer (this w) with
  | Some id => step w (Timer_fire id)
  | None => w
  end.

(** One failed attempt: the current transport closes without an intentional
    close, then the reconnect timer armed for it fires. *)
Definition failedAttempt (w : World) : World := fireReconnect (closeCurrent w).

Definition reconnectEnabled (w : World) : bool :=
  Reconnect.enabled (reconnect (config (env w))).

Definition attemptLimit (w : World) : Z :=
  Reconnect.maxAttempts (reconnect (config (env w))).

(** The client of environment [e] after [connect()] and [n] failed attempts
    in a row. *)
Definition afterFailures (e : Env) (n : nat) : World :=
  Nat.iter n failedAttempt (connect (newClient e)).

(** The frames sent along a trace, oldest first. *)
Definition transmitted (tr : list Obs) : list (SocketId * ClientMessage) :=
  flat_map (fun o => match o with Transmit sock m => [(sock, m)] | _ => [] end) tr.

(** The delays of the reconnect timers armed along a trace, oldest first. *)
Definition reconnectDelays (tr : list Obs) : list number :=
  flat_map
    (fun o =>
       match o with
       | Armed t => match kind t with ReconnectTimer => [delay t] | _ => [] end
       | _ => []
       end) tr.

(** The shape of the world while attempt number [k] is connecting: the
    socket behind [this.ws] is the last one made and is connecting, all
    earlier ones are closed, no heartbeat runs, and the only pending timers
    are connection timeouts. *)
Definition Attempting (e : Env) (k : Z) (w : World) : Prop :=
  exists pre (t : TimerId) cs rt q ts (nt : TimerId) tr,
    w = mkWorld e (mkClient (Some (List.length pre)) cs k rt false None None q)
          (mkHost (pre ++ [mkSocket CONNECTING t]) ts nt tr)
    /\ Forall (fun s => readyState s = CLOSED) pre
    /\ Forall (fun x => kind x = ConnectionTimeout /\ (tid x < nt)%nat) ts
    /\ state cs = Connecting.

(** Nothing is left that could wake the client up: every socket is closed,
    the only pending timers are connection timeouts, and the status is not
    [connecting]. *)
Definition Quiet (w : World) : Prop :=
  Forall (fun s => readyState s = CLOSED) (sockets (host w))
  /\ Forall (fun x => kind x = ConnectionTimeout) (timers (host w))
  /\ state (connectionStatus (this w)) <> Connecting.

(** ** Concrete configurations and worlds used in the examples *)

Module Scenario.

(** [{initialDelay: 1000, maxDelay: 5000, backoffMultiplier: 2,
     maxAttempts: 4}], heartbeat on, queue of two. *)
Definition cfg : WebSocketConfig :=
  mkConfig (Reconnect.mk true 4 1000%Q 5000%Q 2%Q)
           (Heartbeat.mk true 30000%Q 5000%Q)
           (MessageQueue.mk true 2).

Definition cfgQueueZero : WebSocketConfig :=
  mkConfig (reconnect cfg) (heartbeat cfg) (MessageQueue.mk true 0).

Definition cfgQueueOff : WebSocketConfig :=
  mkConfig (reconnect cfg) (heartbeat cfg) (MessageQueue.mk false 2).

Definition cfgNegativeDelay : WebSocketConfig :=
  mkConfig (Reconnect.mk true 4 (-1000)%Q 5000%Q 2%Q)
           (heartbeat cfg) (messageQueueConfig cfg).

(** [{initialDelay: 0, backoffMultiplier: 1e308}]: the power overflows at
    the third attempt. *)
Definition cfgZeroDelay : WebSocketConfig :=
  mkConfig (Reconnect.mk true 4 0%Q 5000%Q (10 ^ 308)%Q)
           (heartbeat cfg) (messageQueueConfig cfg).

Definition cfgOneAttempt : WebSocketConfig :=
  mkConfig (Reconnect.mk true 1 1000%Q 5000%Q 2%Q)
           (heartbeat cfg) (messageQueueConfig cfg).

Definition A : ClientMessage := CallerMessage "message" "A".
Definition B : ClientMessage := CallerMessage "message" "B".
Definition C : ClientMessage := CallerMessage "message" "C".

(** A payload [JSON.stringify] rejects. *)
Definition cyclic : ClientMessage := CallerMessage "message" "<cyclic>".

Definition stringifyThrows (m : ClientMessage) : option string :=
  match m with
  | CallerMessage _ p =>
      if String.eqb p "<cyclic>"
      then Some "Converting circular structure to JSON"
      else None
  | _ => None
  end.

Definition envOf (c : WebSocketConfig) : Env :=
  mkEnv c "session-1" "agent" 42 stringifyThrows None pow64.

Definition fresh : World := newClient (envOf cfg).

(** After [connect()] and the [open] event of its socket. *)
Definition online : World := run fresh [Call_connect; Socket_open 0%nat].

(** Two sends made before [connect()], then [connect()]: the socket is
    still connecting and the queue holds both messages. *)
Definition backlog : World :=
  run fresh [Call_sendMessage cyclic; Call_sendMessage B; Call_connect].

(** [backlog] at the moment the host has marked the socket open and is
    about to call the [open] listeners. *)
Definition opening : World :=
  set_sockets (update_nth 0%nat (set_readyState OPEN) (sockets (host backlog)))
    backlog.

(** Two sends made before [connect()], then [connect()] twice in a row, then
    the [open] event of the first socket, which [this.ws] no longer points
    to: the second socket is still connecting. *)
Definition staleOpen : World :=
  run fresh [Call_sendMessage A; Call_sendMessage B;
             Call_connect; Call_connect; Socket_open 0%nat].

(** [connect()], the 10 s connection timeout fires while still connecting,
    then the [close] event of the socket it closed arrives: two reconnect
    timers (handles 2 and 3) are pending and only the second is held in
    [this.reconnectTimer]. *)
Definition timedOut : World :=
  run fresh [Call_connect; Timer_fire 1%nat; Socket_close 0%nat].

(** The same without a second call by the caller: after [timedOut], two sends
    are queued, both pending reconnect timers fire (two sockets), and the
    socket of the first of them opens; [this.ws] is the socket of the
    second. *)
Definition staleOpenAfterTimeout : World :=
  run timedOut [Call_sendMessage A; Call_sendMessage B;
                Timer_fire 2%nat; Timer_fire 3%nat; Socket_open 1%nat].

(** Four closures in a row, each but the last followed by the firing of its
    reconnect timer. *)
Definition fourClosures : World :=
  run fresh [Call_connect;
             Socket_close 0%nat; Timer_fire 2%nat;
             Socket_close 1%nat; Timer_fire 4%nat;
             Socket_close 2%nat; Timer_fire 6%nat;
             Socket_close 3%nat].

End Scenario.

(** ** Invariants of the reachable worlds *)

(** The queue never holds more than the configured limit, or one message
    when the limit is below one. *)
Definition QueueBounded (w : World) : Prop :=
  Z.of_nat (List.length (messageQueue (this w))) <= Z.max 1 (queueLimit w).

(** The reconnect counter stays between zero and the configured limit. *)
Definition CounterBounded (w : World) : Prop :=
  0 <= reconnectAttempts (this w) <= Z.max 0 (attemptLimit w).

(** The status carried by the last connection-change dispatch of a trace;
    the status of a new object when there was none. *)
Definition statusSeen (tr : list Obs) : ConnectionStatus :=
  fold_left
    (fun seen o => match o with ConnectionChange cs => cs | _ => seen end)
    tr (connectionStatus initialClient).

(** What the subscribers were told last is what [getConnectionStatus()]
    returns. *)
Definition StatusInSync (w : World) : Prop :=
  statusSeen (trace (host w)) = getConnectionStatus w.

(** Every pending heartbeat interval is the one held in
    [this.heartbeatTimer]. *)
Definition IntervalHeld (w : World) : Prop :=
  Forall
    (fun t => kind t = HeartbeatInterval -> heartbeatTimer (this w) = Some (tid t))
    (timers (host w)).

(** Effects that keep a property of the world, whether they return or
    throw. *)
Definition EffKeeps {A} (P : World -> Prop) (m : Eff A) : Prop :=
  forall w, P w -> P (snd (m w)).

(** No heartbeat interval is pending. *)
Definition noIntervalPending (w : World) : Prop :=
  Forall (fun t => kind t <> HeartbeatInterval) (timers (host w)).

(** ** Worlds without leaked timers or sockets *)

Definition holds (field : option TimerId) (t : Timer) : bool :=
  match field with
  | Some id => Nat.eqb id (tid t)
  | None => false
  end.

(** Socket [i], [i+1], ... of the list are live only where [cur] points. *)
Fixpoint onlyLiveAt (cur : option SocketId) (i : nat) (ss : list Socket) : bool :=
  match ss with
  | [] => true
  | s :: rest =>
      (negb (isLive (readyState s))
       || match cur with Some c => Nat.eqb c i | None => false end)
      && onlyLiveAt cur (S i) rest
  end.

(** Every pending reconnect timer and heartbeat interval is the one the
    object holds, and no socket but the one behind [this.ws] is live. *)
Definition tidy (w : World) : bool :=
  forallb
    (fun t =>
       match kind t with
       | ReconnectTimer => holds (reconnectTimer (this w)) t
       | HeartbeatInterval => holds (heartbeatTimer (this w)) t
       | _ => true
       end)
    (timers (host w))
  && onlyLiveAt (ws (this w)) 0 (sockets (host w)).

(** After an intentional disconnect with nothing leaked: no socket is live
    and only timers that cannot reconnect are pending. *)
Definition Settled (w : World) : Prop :=
  isIntentionalClose (this w) = true
  /\ ws (this w) = None
  /\ state (connectionStatus (this w)) = Disconnected
  /\ Forall (fun s => isLive (readyState s) = false) (sockets (host w))
  /\ Forall (fun t => kind t = ConnectionTimeout \/ kind t = HeartbeatTimeout)
       (timers (host w)).

(** Trace entries by which the object acts on the host: frames sent, sockets
    made, timers armed. *)
Definition isAction (o : Obs) : bool :=
  match o with
  | Transmit _ _ | NewWebSocket _ | Armed _ => true
  | _ => false
  end.

(** ** Further configurations used in the examples *)

Module Cases.

(** As [Scenario.cfg], with automatic reconnection switched off. *)
Definition cfgNoReconnect : WebSocketConfig :=
  mkConfig (Reconnect.mk false 4 1000%Q 5000%Q 2%Q)
           (heartbeat Scenario.cfg) (messageQueueConfig Scenario.cfg).

(** Connected, with reconnection switched off. *)
Definition onlineNoReconnect : World :=
  run (newClient (Scenario.envOf cfgNoReconnect)) [Call_connect; Socket_open 0%nat].

(** An environment in which [new WebSocket(url)] throws. *)
Definition envBadUrl (c : WebSocketConfig) : Env :=
  mkEnv c "session-1" "agent" 42 Scenario.stringifyThrows
        (Some "The URL is invalid") pow64.

End Cases.

(** ** When the constructor throws *)

(** The client of environment [e] after [connect()] and [k] firings of the
    reconnect timer it holds. *)
Definition retried (e : Env) (k : nat) : World :=
  Nat.iter k fireReconnect (connect (newClient e)).

(** The error events of a trace. *)
Definition errorEvents (tr : list Obs) : list string :=
  flat_map (fun o => match o with ErrorEvt err => [err] | _ => [] end) tr.

(** The shape of the world between two attempts when no socket could ever be
    made: attempt [k] has failed, its reconnect timer is the only pending
    timer, and [k] error events were dispatched. *)
Definition Retrying (e : Env) (err : string) (k : Z) (w : World) : Prop :=
  exists cs (id : TimerId) tr,
    w = mkWorld e
          (mkClient None cs k (Some id) false None None [])
          (mkHost [] [mkTimer id ReconnectTimer (backoffDelayAt (newClient e) k)]
             (S id) tr)
    /\ cs = mkStatus Reconnecting None (Some k) None
    /\ errorEvents tr = repeat err (Z.to_nat k).

(** ** The handler sets and destroy() *)

(** Handlers are known by their identity.  A handler set is a JavaScript
    [Set]: insertion order, no duplicates. *)
Definition HandlerId := nat.

Definition Set_has (h : HandlerId) (s : list HandlerId) : bool :=
  existsb (Nat.eqb h) s.

(** [set.add(handler)] *)
Definition Set_add (h : HandlerId) (s : list HandlerId) : list HandlerId :=
  if Set_has h s then s else s ++ [h].

(** [set.delete(handler)] *)
Definition Set_delete (h : HandlerId) (s : list HandlerId) : list HandlerId :=
  filter (fun x => negb (Nat.eqb x h)) s.

Module Handlers.
Record t : Type := mk {
  message : list HandlerId;
  error : list HandlerId;
  connectionChange : list HandlerId
}.
End Handlers.

(** The object with its handler sets, and the calls its handlers received:
    each is a handler and the payload it was called with. *)
Record Instance : Type := mkInstance {
  core : World;
  eventHandlers : Handlers.t;
  delivered : list (HandlerId * Obs)
}.

(** The set a dispatch loop runs over. *)
Definition recipients (hs : Handlers.t) (o : Obs) : list HandlerId :=
  match o with
  | ConnectionChange _ => Handlers.connectionChange hs
  | MessageEvt _ => Handlers.message hs
  | ErrorEvt _ => Handlers.error hs
  | _ => []
  end.

(** [set.forEach(handler => { try { handler(payload) } catch ... })]: every
    handler of the set is called once, in insertion order, whether or not an
    earlier one threw. *)
Definition deliver (hs : Handlers.t) (os : list Obs) : list (HandlerId * Obs) :=
  flat_map (fun o => map (fun h => (h, o)) (recipients hs o)) os.

(** A method of the object, with the dispatches it makes delivered to the
    handlers registered at the time. *)
Definition withHandlers (f : World -> World) (i : Instance) : Instance :=
  let w' := f (core i) in
  mkInstance w' (eventHandlers i)
    (delivered i
     ++ deliver (eventHandlers i)
          (skipn (List.length (trace (host (core i)))) (trace (host w')))).

(** [onMessage(handler)]; the function it returns is [offMessage handler]. *)
Definition onMessage (h : HandlerId) (i : Instance) : Instance :=
  let hs := eventHandlers i in
  mkInstance (core i)
    (Handlers.mk (Set_add h (Handlers.message hs)) (Handlers.error hs)
       (Handlers.connectionChange hs))
    (delivered i).

Definition offMessage (h : HandlerId) (i : Instance) : Instance :=
  let hs := eventHandlers i in
  mkInstance (core i)
    (Handlers.mk (Set_delete h (Handlers.message hs)) (Handlers.error hs)
       (Handlers.connectionChange hs))
    (delivered i).

(** [onError(handler)]; the function it returns is [offError handler]. *)
Definition onError (h : HandlerId) (i : Instance) : Instance :=
  let hs := eventHandlers i in
  mkInstance (core i)
    (Handlers.mk (Handlers.message hs) (Set_add h (Handlers.error hs))
       (Handlers.connectionChange hs))
    (delivered i).

Definition offError (h : HandlerId) (i : Instance) : Instance :=
  let hs := eventHandlers i in
  mkInstance (core i)
    (Handlers.mk (Handlers.message hs) (Set_delete h (Handlers.error hs))
       (Handlers.connectionChange hs))
    (delivered i).

(** [onConnectionChange(handler)]; the function it returns is
    [offConnectionChange handler]. *)
Definition onConnectionChange (h : HandlerId) (i : Instance) : Instance :=
  let hs := eventHandlers i in
  mkInstance (core i)
    (Handlers.mk (Handlers.message hs) (Handlers.error hs)
       (Set_add h (Handlers.connectionChange hs)))
    (delivered i).

Definition offConnectionChange (h : HandlerId) (i : Instance) : Instance :=
  let hs := eventHandlers i in
  mkInstance (core i)
    (Handlers.mk (Handlers.message hs) (Handlers.error hs)
       (Set_delete h (Handlers.connectionChange hs)))
    (delivered i).

(** [destroy()] *)
Definition destroy (i : Instance) : Instance :=
  let w1 := set_isIntentionalClose true (core i) in
  let w2 := cleanup w1 in
  mkInstance (set_messageQueue [] w2) (Handlers.mk [] [] []) (delivered i).

(** What can happen to an object in use: the events of the core, the
    subscription calls, and [destroy()]. *)
Inductive Action : Type :=
| Core (e : Event)
| Subscribe_message (h : HandlerId)
| Unsubscribe_message (h : HandlerId)
| Subscribe_error (h : HandlerId)
| Unsubscribe_error (h : HandlerId)
| Subscribe_connectionChange (h : HandlerId)
| Unsubscribe_connectionChange (h : HandlerId)
| Destroy.

Definition act (i : Instance) (a : Action) : Instance :=
  match a with
  | Core e => withHandlers (fun w => step w e) i
  | Subscribe_message h => onMessage h i
  | Unsubscribe_message h => offMessage h i
  | Subscribe_error h => onError h i
  | Unsubscribe_error h => offError h i
  | Subscribe_connectionChange h => onConnectionChange h i
  | Unsubscribe_connectionChange h => offConnectionChange h i
  | Destroy => destroy i
  end.

Definition acts (i : Instance) (l : list Action) : Instance := fold_left act l i.

(** [new WebSocketClient(config)] *)
Definition newInstance (e : Env) : Instance :=
  mkInstance (newClient e) (Handlers.mk [] [] []) [].

(** The action subscribes [h] to something. *)
Definition subscribes (h : HandlerId) (a : Action) : bool :=
  match a with
  | Subscribe_message h' | Subscribe_error h' | Subscribe_connectionChange h' =>
      Nat.eqb h' h
  | _ => false
  end.

(** The action is a subscription of any handler. *)
Definition isSubscribe (a : Action) : bool :=
  match a with
  | Subscribe_message _ | Subscribe_error _ | Subscribe_connectionChange _ => true
  | _ => false
  end.

(** The handler is in none of the three sets. *)
Definition unregistered (h : HandlerId) (i : Instance) : Prop :=
  ~ In h (Handlers.message (eventHandlers i))
  /\ ~ In h (Handlers.error (eventHandlers i))
  /\ ~ In h (Handlers.connectionChange (eventHandlers i)).

(** ** Frame facts: what the primitives leave alone *)

Lemma env_queueMessage m w : env (queueMessage m w) = env w.
Proof. reflexivity. Qed.

Lemma host_queueMessage m w : host (queueMessage m w) = host w.
Proof. reflexivity. Qed.

Lemma openSocket_queueMessage m w : openSocket (queueMessage m w) = openSocket w.
Proof. reflexivity. Qed.

Lemma openSocket_emit o w : openSocket (emit o w) = openSocket w.
Proof. reflexivity. Qed.

Lemma openSocket_None_not_connected w :
  openSocket w = None <-> isConnected w = false.
Proof.
  unfold isConnected. destruct (openSocket w); split; congruence.
Qed.

(** ** The outbound queue while no transport is open *)

Lemma messageQueue_queueMessage m w :
  messageQueue (this (queueMessage m w))
  = enqueued (queueLimit w) (messageQueue (this w)) m.
Proof. reflexivity. Qed.

Lemma sendMessage_offline m w :
  openSocket w = None -> queueEnabled w = true ->
  sendMessage m w = (Returns false, queueMessage m w).
Proof.
  unfold sendMessage, queueEnabled. intros -> ->. reflexivity.
Qed.

Lemma sendMessage_offline_disabled m w :
  openSocket w = None -> queueEnabled w = false ->
  sendMessage m w
  = (Throws "WebSocket not connected and message queue disabled", w).
Proof.
  unfold sendMessage, queueEnabled. intros -> ->. reflexivity.
Qed.

Lemma sendMessage_open_fails m w sock e :
  openSocket w = Some sock -> sendThrows (env w) m = Some e ->
  sendMessage m w = (Returns false, emitError e w).
Proof.
  unfold sendMessage. intros -> ->. reflexivity.
Qed.

Lemma sendMessage_open_ok m w sock :
  openSocket w = Some sock -> sendThrows (env w) m = None ->
  sendMessage m w = (Returns true, emit (Transmit sock m) w).
Proof.
  unfold sendMessage. intros -> ->. reflexivity.
Qed.

(** A run of offline sends only touches the queue. *)
Lemma run_offline_sends ms : forall w,
  openSocket w = None -> queueEnabled w = true ->
  run w (map Call_sendMessage ms)
  = fold_left (fun w' m => queueMessage m w') ms w.
Proof.
  induction ms as [|m ms IH]; intros w Hoff Hen; [reflexivity|].
  cbn [map run fold_left step] in *.
  unfold exec at 1. rewrite (sendMessage_offline m w Hoff Hen). cbn [snd].
  apply IH; [rewrite openSocket_queueMessage; exact Hoff | exact Hen].
Qed.

Lemma messageQueue_fold_queueMessage ms : forall w,
  messageQueue (this (fold_left (fun w' m => queueMessage m w') ms w))
  = fold_left (enqueued (queueLimit w)) ms (messageQueue (this w)).
Proof.
  induction ms as [|m ms IH]; intros w; [reflexivity|].
  cbn [fold_left]. rewrite IH. reflexivity.
Qed.

Lemma length_tl {A} (l : list A) : List.length (tl l) = pred (List.length l).
Proof. destruct l; reflexivity. Qed.

Lemma enqueued_length_bound maxSize q m :
  1 <= maxSize ->
  Z.of_nat (List.length q) <= maxSize ->
  Z.of_nat (List.length (enqueued maxSize q m)) <= maxSize.
Proof.
  intros Hpos Hq. unfold enqueued.
  destruct (Z.geb_spec (Z.of_nat (List.length q)) maxSize) as [Hfull|Hroom];
    rewrite length_app; cbn [List.length].
  - rewrite length_tl. lia.
  - lia.
Qed.

Lemma fold_enqueued_length_bound maxSize ms : forall q,
  1 <= maxSize ->
  Z.of_nat (List.length q) <= maxSize ->
  Z.of_nat (List.length (fold_left (enqueued maxSize) ms q)) <= maxSize.
Proof.
  induction ms as [|m ms IH]; intros q Hpos Hq; [exact Hq|].
  cbn [fold_left]. apply IH; [exact Hpos|].
  apply enqueued_length_bound; assumption.
Qed.

(** With a limit of zero the array always holds exactly the last message. *)
Lemma enqueued_zero q m :
  (List.length q <= 1)%nat -> enqueued 0 q m = [m].
Proof.
  intros Hq. unfold enqueued.
  destruct (Z.geb_spec (Z.of_nat (List.length q)) 0) as [_|Hneg]; [|lia].
  destruct q as [|a [|b q]]; cbn in *; [reflexivity | reflexivity | lia].
Qed.

Lemma fold_enqueued_zero ms : forall q m,
  (List.length q <= 1)%nat ->
  fold_left (enqueued 0) (ms ++ [m]) q = [m].
Proof.
  induction ms as [|a ms IH]; intros q m Hq; cbn [app fold_left].
  - apply enqueued_zero; exact Hq.
  - apply IH. rewrite (enqueued_zero q a Hq). cbn. lia.
Qed.

(** ** sendMessage while no transport is open *)

(** C2 (as stated) fails: the value returned for a queued message is the very
    value returned when transmission over an open transport fails. *)
Lemma sendMessage_queued_same_as_failed :
  openSocket Scenario.fresh = None
  /\ queueEnabled Scenario.fresh = true
  /\ openSocket Scenario.online = Some 0%nat
  /\ sendThrows (env Scenario.online) Scenario.cyclic
     = Some "Converting circular structure to JSON"
  /\ fst (sendMessage Scenario.cyclic Scenario.fresh)
     = fst (sendMessage Scenario.cyclic Scenario.online).
Proof. repeat split; reflexivity. Qed.

(** C2 (amended): with no transport open, [sendMessage] hands the message to
    [queueMessage] and returns [false] when queueing is enabled, and throws
    when it is disabled; a transmit failure over an open transport returns
    [false] as well (the two cases differ in their effects only: the queue
    grows in the first, an error event is dispatched in the second). *)
Theorem sendMessage_disconnected_or_failing
    (w w' : World) (m : ClientMessage) (sock : SocketId) (e : string)
    (Hoff : openSocket w = None)
    (Hopen : openSocket w' = Some sock)
    (Hfail : sendThrows (env w') m = Some e) :
  sendMessage m w
  = (if queueEnabled w
     then (Returns false, queueMessage m w)
     else (Throws "WebSocket not connected and message queue disabled", w))
  /\ sendMessage m w' = (Returns false, emitError e w').
Proof.
  split.
  - destruct (queueEnabled w) eqn:Hen.
    + apply sendMessage_offline; assumption.
    + apply sendMessage_offline_disabled; assumption.
  - eapply sendMessage_open_fails; eassumption.
Qed.

Lemma sendMessage_disconnected_or_failing_witness :
  sendMessage Scenario.cyclic Scenario.fresh
  = (Returns false, queueMessage Scenario.cyclic Scenario.fresh)
  /\ sendMessage Scenario.cyclic Scenario.online
     = (Returns false,
        emitError "Converting circular structure to JSON" Scenario.online).
Proof.
  apply (sendMessage_disconnected_or_failing
           Scenario.fresh Scenario.online Scenario.cyclic 0%nat
           "Converting circular structure to JSON");
    reflexivity.
Defined.

(** ** Bound and eviction order of the queue *)

(** C3 (as stated) fails for a limit of zero: one offline send leaves one
    entry in the queue. *)
Lemma queue_exceeds_zero_limit :
  openSocket (newClient (Scenario.envOf Scenario.cfgQueueZero)) = None
  /\ queueEnabled (newClient (Scenario.envOf Scenario.cfgQueueZero)) = true
  /\ Z.of_nat (List.length
                 (messageQueue
                    (this (newClient (Scenario.envOf Scenario.cfgQueueZero)))))
     <= queueLimit (newClient (Scenario.envOf Scenario.cfgQueueZero))
  /\ queueLimit (newClient (Scenario.envOf Scenario.cfgQueueZero))
     < Z.of_nat (List.length
                   (messageQueue
                      (this (run (newClient (Scenario.envOf Scenario.cfgQueueZero))
                               [Call_sendMessage Scenario.A])))).
Proof.
  split; [reflexivity|]. split; [reflexivity|].
  split; [apply Z.le_refl | reflexivity].
Qed.

(** C3 (amended): for a configured limit that is an integer of at least one,
    no run of sends made while disconnected takes the queue above the limit;
    a send into a full queue drops the head and appends, a send into a queue
    with room only appends; with a limit of two, sending a, b, c into the
    empty queue leaves [b; c]. *)
Theorem queue_never_exceeds_limit
    (w : World) (ms : list ClientMessage) (a b c : ClientMessage)
    (Hoff : openSocket w = None)
    (Hen : queueEnabled w = true)
    (Hpos : 1 <= queueLimit w)
    (Hinit : Z.of_nat (List.length (messageQueue (this w))) <= queueLimit w) :
  Z.of_nat (List.length (messageQueue (this (run w (map Call_sendMessage ms)))))
    <= queueLimit w
  /\ (forall m,
        messageQueue (this (step w (Call_sendMessage m)))
        = (if Z.of_nat (List.length (messageQueue (this w))) =? queueLimit w
           then tl (messageQueue (this w))
           else messageQueue (this w)) ++ [m])
  /\ messageQueue
       (this (run Scenario.fresh (map Call_sendMessage [a; b; c]))) = [b; c].
Proof.
  split; [|split].
  - rewrite (run_offline_sends ms w Hoff Hen).
    rewrite messageQueue_fold_queueMessage.
    apply fold_enqueued_length_bound; assumption.
  - intros m. cbn [step]. unfold exec.
    rewrite (sendMessage_offline m w Hoff Hen). cbn [snd].
    rewrite messageQueue_queueMessage. unfold enqueued.
    destruct (Z.geb_spec (Z.of_nat (List.length (messageQueue (this w))))
                (queueLimit w)) as [Hfull|Hroom];
      destruct (Z.eqb_spec (Z.of_nat (List.length (messageQueue (this w))))
                  (queueLimit w)) as [Heq|Hne];
      try reflexivity; lia.
  - reflexivity.
Qed.

Lemma queue_never_exceeds_limit_witness :
  Z.of_nat (List.length
              (messageQueue
                 (this (run Scenario.fresh
                          (map Call_sendMessage
                             [Scenario.A; Scenario.B; Scenario.C; Scenario.A])))))
    <= 2.
Proof.
  apply (queue_never_exceeds_limit Scenario.fresh
           [Scenario.A; Scenario.B; Scenario.C; Scenario.A]
           Scenario.A Scenario.B Scenario.C);
    first [reflexivity | discriminate].
Defined.

(** C10: with [messageQueue.maxSize] set to 0 and queueing enabled, sends made
    while disconnected are still stored: after any positive number of them
    the queue holds exactly the message sent last. *)
Theorem queue_limit_zero_keeps_last
    (w : World) (ms : list ClientMessage) (m : ClientMessage)
    (Hoff : openSocket w = None)
    (Hen : queueEnabled w = true)
    (Hzero : queueLimit w = 0)
    (Hinit : (List.length (messageQueue (this w)) <= 1)%nat) :
  messageQueue (this (run w (map Call_sendMessage (ms ++ [m])))) = [m].
Proof.
  rewrite (run_offline_sends (ms ++ [m]) w Hoff Hen).
  rewrite messageQueue_fold_queueMessage, Hzero.
  apply fold_enqueued_zero; exact Hinit.
Qed.

Lemma queue_limit_zero_keeps_last_witness :
  messageQueue
    (this (run (newClient (Scenario.envOf Scenario.cfgQueueZero))
             (map Call_sendMessage ([Scenario.A; Scenario.B] ++ [Scenario.C]))))
  = [Scenario.C].
Proof.
  apply (queue_limit_zero_keeps_last
           (newClient (Scenario.envOf Scenario.cfgQueueZero))
           [Scenario.A; Scenario.B] Scenario.C);
    first [reflexivity | cbn; lia].
Defined.

(** ** JavaScript numbers *)

(** *** Powers of two and the binary logarithm *)

Lemma pow2_pos k : (0 < pow2 k)%Q.
Proof. apply Qpower_0_lt. reflexivity. Qed.

Lemma pow2_le a b : a <= b -> (pow2 a <= pow2 b)%Q.
Proof. intros H. apply Qpower_le_compat_l; [exact H | discriminate]. Qed.

Lemma pow2_lt a b : a < b -> (pow2 a < pow2 b)%Q.
Proof. intros H. apply Qpower_lt_compat_l; [exact H | reflexivity]. Qed.

Lemma pow2_plus a b : (pow2 (a + b) == pow2 a * pow2 b)%Q.
Proof. apply Qpower_plus. discriminate. Qed.

Lemma pow2_succ a : (pow2 (a + 1) == 2 * pow2 a)%Q.
Proof. rewrite pow2_plus. unfold pow2 at 2. rewrite Qpower_1_r. ring. Qed.

Lemma pow2_inject k : 0 <= k -> (pow2 k == inject_Z (2 ^ k))%Q.
Proof. intros H. unfold pow2. rewrite Zpower_Qpower by exact H. reflexivity. Qed.

Lemma pow2_lt_inv a b : (pow2 a < pow2 b)%Q -> a < b.
Proof. intros H. apply (Qpower_lt_compat_l_inv 2); [exact H | reflexivity]. Qed.

Lemma log2_bounds (n : Z) :
  0 < n -> (pow2 (Z.log2 n) <= inject_Z n < 2 * pow2 (Z.log2 n))%Q.
Proof.
  intros Hn. destruct (Z.log2_spec n Hn) as [Hlo Hhi].
  pose proof (Z.log2_nonneg n) as Hnn.
  rewrite pow2_inject by exact Hnn. split.
  - rewrite <- Zle_Qle. exact Hlo.
  - replace (2 * inject_Z (2 ^ Z.log2 n))%Q with (inject_Z (2 * 2 ^ Z.log2 n)).
    + rewrite <- Zlt_Qlt. rewrite <- Z.pow_succ_r by exact Hnn. exact Hhi.
    + rewrite inject_Z_mult. reflexivity.
Qed.

Lemma Q_as_quotient (q : Q) :
  (q * inject_Z (Zpos (Qden q)) == inject_Z (Qnum q))%Q.
Proof.
  destruct q as [n d]. unfold Qeq, inject_Z. cbn. rewrite Pos.mul_1_r. ring.
Qed.

Lemma ilog2_spec (q : Q) :
  (0 < q)%Q -> (pow2 (ilog2 q) <= q < pow2 (ilog2 q + 1))%Q.
Proof.
  intros Hq.
  assert (Hn : 0 < Qnum q).
  { destruct q as [n d]. unfold Qlt in Hq. cbn in *. lia. }
  destruct (log2_bounds (Qnum q) Hn) as [Hn1 Hn2].
  destruct (log2_bounds (Zpos (Qden q)) (Pos2Z.is_pos _)) as [Hd1 Hd2].
  pose proof (Q_as_quotient q) as Hquot.
  set (A := pow2 (Z.log2 (Qnum q))) in *.
  set (B := pow2 (Z.log2 (Zpos (Qden q)))) in *.
  set (n := inject_Z (Qnum q)) in *.
  set (d := inject_Z (Zpos (Qden q))) in *.
  assert (HA : (0 < A)%Q) by apply pow2_pos.
  assert (HB : (0 < B)%Q) by apply pow2_pos.
  assert (Hk : (pow2 (Z.log2 (Qnum q) - Z.log2 (Zpos (Qden q))) * B == A)%Q).
  { unfold A, B. rewrite <- pow2_plus.
    replace (Z.log2 (Qnum q) - Z.log2 (Zpos (Qden q)) + Z.log2 (Zpos (Qden q)))
      with (Z.log2 (Qnum q)) by lia.
    reflexivity. }
  set (k := Z.log2 (Qnum q) - Z.log2 (Zpos (Qden q))) in *.
  clearbody A B n d.
  assert (Hlow : (pow2 (k - 1) < q)%Q).
  { assert (E : (2 * pow2 (k - 1) == pow2 k)%Q).
    { rewrite <- pow2_succ. replace (k - 1 + 1) with k by lia. reflexivity. }
    assert (Hd : (0 < d)%Q) by lra.
    apply (Qmult_lt_r _ _ d Hd). rewrite Hquot.
    assert (Hp : (0 < pow2 (k - 1))%Q) by apply pow2_pos.
    apply Qlt_le_trans with (pow2 (k - 1) * (2 * B))%Q.
    - apply Qmult_lt_l; assumption.
    - assert (X : (pow2 (k - 1) * (2 * B) == A)%Q)
        by (rewrite <- Hk, <- E; ring).
      rewrite X. exact Hn1. }
  assert (Hhigh : (q < pow2 (k + 1))%Q).
  { assert (Hd : (0 < d)%Q) by lra.
    apply (Qmult_lt_r _ _ d Hd). rewrite Hquot.
    apply Qlt_le_trans with (2 * A)%Q; [exact Hn2|].
    rewrite pow2_succ.
    assert (X : (2 * A == (2 * pow2 k) * B)%Q) by (rewrite <- Hk; ring).
    rewrite X. apply Qmult_le_l; [|exact Hd1].
    pose proof (pow2_pos k). lra. }
  unfold ilog2. fold k.
  destruct (Qle_bool (pow2 k) q) eqn:Hc.
  - apply Qle_bool_iff in Hc. split; assumption.
  - assert (Hlt : (q < pow2 k)%Q).
    { apply Qnot_le_lt. intros Hle. apply Qle_bool_iff in Hle. congruence. }
    split; [apply Qlt_le_weak; exact Hlow|].
    replace (k - 1 + 1) with k by lia. exact Hlt.
Qed.

Lemma ilog2_monotone (x y : Q) :
  (0 < x)%Q -> (x <= y)%Q -> ilog2 x <= ilog2 y.
Proof.
  intros Hx Hxy.
  destruct (ilog2_spec x Hx) as [Hx1 _].
  destruct (ilog2_spec y) as [_ Hy2]; [lra|].
  assert (H : ilog2 x < ilog2 y + 1).
  { apply pow2_lt_inv. lra. }
  lia.
Qed.

(** *** Rounding to the nearest integer, ties to even *)

Lemma roundHalfEven_bounds (q : Q) :
  Qfloor q <= roundHalfEven q <= Qfloor q + 1.
Proof.
  unfold roundHalfEven.
  destruct (q - inject_Z (Qfloor q) ?= 1 # 2)%Q; [destruct (Z.even _)| |]; lia.
Qed.

Lemma roundHalfEven_integer (n : Z) : roundHalfEven (inject_Z n) = n.
Proof.
  unfold roundHalfEven. rewrite Qfloor_Z.
  assert (H : (inject_Z n - inject_Z n ?= 1 # 2)%Q = Lt).
  { rewrite <- Qlt_alt. lra. }
  rewrite H. reflexivity.
Qed.

Lemma roundHalfEven_monotone (x y : Q) :
  (x <= y)%Q -> roundHalfEven x <= roundHalfEven y.
Proof.
  intros Hxy.
  pose proof (Qfloor_resp_le x y Hxy) as Hf.
  destruct (Z.eq_dec (Qfloor x) (Qfloor y)) as [E|NE].
  - unfold roundHalfEven. rewrite <- E.
    destruct (x - inject_Z (Qfloor x) ?= 1 # 2)%Q eqn:Cx;
      destruct (y - inject_Z (Qfloor x) ?= 1 # 2)%Q eqn:Cy;
      try (destruct (Z.even (Qfloor x))); try lia;
      try rewrite <- Qeq_alt in *; try rewrite <- Qlt_alt in *;
      try rewrite <- Qgt_alt in *; lra.
  - pose proof (roundHalfEven_bounds x). pose proof (roundHalfEven_bounds y). lia.
Qed.

Lemma roundHalfEven_le_integer (x : Q) (n : Z) :
  (x <= inject_Z n)%Q -> roundHalfEven x <= n.
Proof.
  intros H. rewrite <- (roundHalfEven_integer n). apply roundHalfEven_monotone, H.
Qed.

Lemma roundHalfEven_ge_integer (x : Q) (n : Z) :
  (inject_Z n <= x)%Q -> n <= roundHalfEven x.
Proof.
  intros H. rewrite <- (roundHalfEven_integer n). apply roundHalfEven_monotone, H.
Qed.

Lemma roundHalfEven_within_half (t : Q) :
  (inject_Z (roundHalfEven t) - (1 # 2) <= t
   <= inject_Z (roundHalfEven t) + (1 # 2))%Q.
Proof.
  pose proof (Qfloor_le t) as Hlo. pose proof (Qlt_floor t) as Hhi.
  rewrite inject_Z_plus in Hhi. change (inject_Z 1) with 1%Q in Hhi.
  unfold roundHalfEven.
  destruct (t - inject_Z (Qfloor t) ?= 1 # 2)%Q eqn:C;
    [rewrite <- Qeq_alt in C | rewrite <- Qlt_alt in C | rewrite <- Qgt_alt in C].
  - destruct (Z.even (Qfloor t)); [|rewrite inject_Z_plus; change (inject_Z 1) with 1%Q];
      lra.
  - lra.
  - rewrite inject_Z_plus. change (inject_Z 1) with 1%Q. lra.
Qed.

Lemma roundHalfEven_comp (x y : Q) :
  (x == y)%Q -> roundHalfEven x = roundHalfEven y.
Proof.
  intros H. unfold roundHalfEven. rewrite (Qfloor_comp x y H).
  assert (C : (x - inject_Z (Qfloor y) ?= 1 # 2)%Q
              = (y - inject_Z (Qfloor y) ?= 1 # 2)%Q).
  { apply Qcompare_comp; [rewrite H; reflexivity | reflexivity]. }
  rewrite C. reflexivity.
Qed.

(** *** Rounding a positive rational to binary64 *)

Lemma div_pow2 (x : Q) (c : Z) : (x / pow2 c == x * pow2 (- c))%Q.
Proof. unfold Qdiv, pow2. rewrite Qpower_opp. reflexivity. Qed.

Lemma scale_monotone (x y : Q) (c : Z) :
  (x <= y)%Q -> (x * pow2 c <= y * pow2 c)%Q.
Proof.
  intros H. apply Qmult_le_compat_r; [exact H|]. apply Qlt_le_weak, pow2_pos.
Qed.

Lemma quantum_monotone (x y : Q) :
  (0 < x)%Q -> (x <= y)%Q -> quantum x <= quantum y.
Proof.
  intros Hx Hxy. unfold quantum. pose proof (ilog2_monotone x y Hx Hxy). lia.
Qed.

Lemma nearest_nonneg (q : Q) : (0 < q)%Q -> (0 <= nearest q)%Q.
Proof.
  intros Hq. unfold nearest.
  apply Qmult_le_0_compat; [|apply Qlt_le_weak, pow2_pos].
  change 0%Q with (inject_Z 0). rewrite <- Zle_Qle.
  apply roundHalfEven_ge_integer. change (inject_Z 0) with 0%Q.
  rewrite div_pow2. apply Qmult_le_0_compat; [lra|apply Qlt_le_weak, pow2_pos].
Qed.

(** The rounded value is at most the next power of two ... *)
Lemma nearest_le_pow2 (x : Q) (E : Z) :
  (0 < x)%Q -> (x <= pow2 E)%Q -> quantum x <= E -> (nearest x <= pow2 E)%Q.
Proof.
  intros Hx Hle Hc. unfold nearest. set (c := quantum x) in *.
  assert (HE : (pow2 E == inject_Z (2 ^ (E - c)) * pow2 c)%Q).
  { rewrite <- pow2_inject by lia. rewrite <- pow2_plus.
    replace (E - c + c) with E by lia. reflexivity. }
  rewrite HE. apply scale_monotone. rewrite <- Zle_Qle.
  apply roundHalfEven_le_integer.
  rewrite <- pow2_inject by lia. rewrite div_pow2.
  replace (E - c) with (E + - c) by lia. rewrite pow2_plus.
  apply scale_monotone, Hle.
Qed.

(** ... and at least the previous one. *)
Lemma nearest_ge_pow2 (y : Q) (E : Z) :
  (0 < y)%Q -> (pow2 E <= y)%Q -> quantum y <= E -> (pow2 E <= nearest y)%Q.
Proof.
  intros Hy Hle Hc. unfold nearest. set (c := quantum y) in *.
  assert (HE : (pow2 E == inject_Z (2 ^ (E - c)) * pow2 c)%Q).
  { rewrite <- pow2_inject by lia. rewrite <- pow2_plus.
    replace (E - c + c) with E by lia. reflexivity. }
  rewrite HE. apply scale_monotone. rewrite <- Zle_Qle.
  apply roundHalfEven_ge_integer.
  rewrite <- pow2_inject by lia. rewrite div_pow2.
  replace (E - c) with (E + - c) by lia. rewrite pow2_plus.
  apply scale_monotone, Hle.
Qed.

Lemma nearest_monotone (x y : Q) :
  (0 < x)%Q -> (x <= y)%Q -> (nearest x <= nearest y)%Q.
Proof.
  intros Hx Hxy. assert (Hy : (0 < y)%Q) by lra.
  pose proof (quantum_monotone x y Hx Hxy) as Hc.
  destruct (Z.eq_dec (quantum x) (quantum y)) as [E|NE].
  - unfold nearest. rewrite <- E. apply scale_monotone. rewrite <- Zle_Qle.
    apply roundHalfEven_monotone. rewrite !div_pow2. apply scale_monotone, Hxy.
  - destruct (ilog2_spec x Hx) as [_ Hx2]. destruct (ilog2_spec y Hy) as [Hy1 _].
    unfold quantum in Hc, NE.
    set (E := Z.max (ilog2 x) (-1022) + 1).
    apply Qle_trans with (pow2 E).
    + apply nearest_le_pow2; [exact Hx| |unfold quantum; lia].
      apply Qle_trans with (pow2 (ilog2 x + 1)); [lra|]. apply pow2_le. lia.
    + apply Qle_trans with (pow2 (ilog2 y)); [apply pow2_le; lia|].
      apply nearest_ge_pow2; [exact Hy|exact Hy1|unfold quantum; lia].
Qed.

(** The rounded value is a multiple of the unit in the last place and lies
    within half a unit of the exact one. *)
Lemma nearest_within_half_ulp (q : Q) :
  (nearest q - pow2 (quantum q - 1) <= q
   <= nearest q + pow2 (quantum q - 1))%Q.
Proof.
  unfold nearest. set (c := quantum q).
  pose proof (roundHalfEven_within_half (q / pow2 c)) as [Hlo Hhi].
  set (r := inject_Z (roundHalfEven (q / pow2 c))) in *. clearbody r.
  pose proof (pow2_pos c) as Hc.
  assert (Hhalf : (pow2 (c - 1) == (1 # 2) * pow2 c)%Q).
  { pose proof (pow2_succ (c - 1)) as E.
    replace (c - 1 + 1) with c in E by lia. rewrite E. field. }
  assert (Hq : (q == (q / pow2 c) * pow2 c)%Q) by (field; lra).
  set (t := (q / pow2 c)%Q) in *. clearbody t.
  rewrite Hhalf. rewrite Hq. split.
  - setoid_replace (r * pow2 c - (1 # 2) * pow2 c)%Q with ((r - (1 # 2)) * pow2 c)%Q by ring.
    apply Qmult_le_compat_r; lra.
  - setoid_replace (r * pow2 c + (1 # 2) * pow2 c)%Q with ((r + (1 # 2)) * pow2 c)%Q by ring.
    apply Qmult_le_compat_r; lra.
Qed.

(** A value that is already a multiple of its unit in the last place is
    not changed. *)
Lemma nearest_of_multiple (q : Q) (n : Z) :
  (q == inject_Z n * pow2 (quantum q))%Q -> (nearest q == q)%Q.
Proof.
  intros H. unfold nearest.
  assert (E : (q / pow2 (quantum q) == inject_Z n)%Q).
  { rewrite H at 1. field. pose proof (pow2_pos (quantum q)). lra. }
  assert (R : roundHalfEven (q / pow2 (quantum q)) = n).
  { rewrite (roundHalfEven_comp _ _ E). apply roundHalfEven_integer. }
  rewrite R. symmetry. exact H.
Qed.

(** *** Comparison of numbers *)

Lemma num_le_Finite (a b : Q) : num_le (Finite a) (Finite b) <-> (a <= b)%Q.
Proof. unfold num_le. cbn. apply Qle_bool_iff. Qed.

Lemma num_le_trans (x y z : number) : num_le x y -> num_le y z -> num_le x z.
Proof.
  unfold num_le. destruct x, y, z; cbn; try congruence.
  rewrite !Qle_bool_iff. apply Qle_trans.
Qed.

Lemma num_le_refl (x : number) : x <> NaN -> num_le x x.
Proof.
  unfold num_le. destruct x; cbn; try congruence.
  intros _. apply Qle_bool_iff, Qle_refl.
Qed.

Lemma num_le_neg (x y : number) : num_le x y -> num_le (neg y) (neg x).
Proof.
  unfold num_le. destruct x, y; cbn; try congruence.
  rewrite !Qle_bool_iff. intros H. lra.
Qed.

Lemma num_le_not_NaN (x y : number) : num_le x y -> x <> NaN /\ y <> NaN.
Proof. unfold num_le. destruct x, y; cbn; split; congruence. Qed.

Lemma roundPositive_monotone (x y : Q) :
  (0 < x)%Q -> (x <= y)%Q -> num_le (roundPositive x) (roundPositive y).
Proof.
  intros Hx Hxy. pose proof (nearest_monotone x y Hx Hxy) as Hn.
  unfold roundPositive.
  destruct (Qle_bool (pow2 1024) (nearest x)) eqn:Ox;
    destruct (Qle_bool (pow2 1024) (nearest y)) eqn:Oy; try reflexivity.
  - apply Qle_bool_iff in Ox.
    assert (Hc : (pow2 1024 <= nearest y)%Q) by (eapply Qle_trans; eassumption).
    apply Qle_bool_iff in Hc. congruence.
  - apply num_le_Finite. rewrite !Qred_correct. exact Hn.
Qed.

Lemma roundPositive_nonneg (q : Q) :
  (0 < q)%Q -> num_le (Finite 0) (roundPositive q).
Proof.
  intros Hq. unfold roundPositive.
  destruct (Qle_bool (pow2 1024) (nearest q)); [reflexivity|].
  apply num_le_Finite. rewrite Qred_correct. apply nearest_nonneg, Hq.
Qed.

Lemma round64_monotone (x y : Q) :
  (x <= y)%Q -> num_le (round64 x) (round64 y).
Proof.
  intros Hxy. unfold round64.
  destruct (x ?= 0)%Q eqn:Cx; destruct (y ?= 0)%Q eqn:Cy;
    try rewrite <- Qeq_alt in *; try rewrite <- Qlt_alt in *;
    try rewrite <- Qgt_alt in *; try lra.
  - reflexivity.
  - apply roundPositive_nonneg. lra.
  - change (Finite 0) with (neg (Finite 0)).
    apply num_le_neg, roundPositive_nonneg. lra.
  - apply num_le_neg, roundPositive_monotone; lra.
  - apply num_le_trans with (Finite 0).
    + change (Finite 0) with (neg (Finite 0)).
      apply num_le_neg, roundPositive_nonneg. lra.
    + apply roundPositive_nonneg. lra.
  - apply roundPositive_monotone; lra.
Qed.

Lemma round64_not_NaN (q : Q) : round64 q <> NaN.
Proof.
  pose proof (round64_monotone q q (Qle_refl q)) as H.
  apply num_le_not_NaN in H. tauto.
Qed.

(** *** Product and minimum *)

Lemma timesInfinity_positive (a : Q) : (0 < a)%Q -> timesInfinity a = Infinity.
Proof.
  intros Ha. unfold timesInfinity. apply (proj1 (Qgt_alt a 0)) in Ha.
  rewrite Ha. reflexivity.
Qed.

(** The product with a factor [a >= 0] keeps the order; for [a = 0] the
    other factor has to be finite, [0 * Infinity] being [NaN]. *)
Lemma mul_monotone (a : Q) (x y : number) :
  (0 <= a)%Q ->
  ((a == 0)%Q -> isFinite x = true /\ isFinite y = true) ->
  num_le x y ->
  num_le (mul (Finite a) x) (mul (Finite a) y).
Proof.
  intros Ha Hzero Hxy.
  destruct (Qlt_le_dec 0 a) as [Hpos|Hle].
  - pose proof (timesInfinity_positive a Hpos) as Ht.
    destruct x as [b| | |], y as [c| | |]; cbn [mul]; rewrite ?Ht; cbn [neg];
      try discriminate Hxy; try reflexivity.
    + apply round64_monotone. apply num_le_Finite in Hxy.
      apply Qmult_le_l; assumption.
    + pose proof (round64_not_NaN (a * b)) as H. unfold num_le.
      destruct (round64 (a * b)); cbn; congruence.
    + pose proof (round64_not_NaN (a * c)) as H. unfold num_le.
      destruct (round64 (a * c)); cbn; congruence.
  - assert (Ha0 : (a == 0)%Q) by lra.
    destruct (Hzero Ha0) as [Hx Hy].
    destruct x as [b| | |], y as [c| | |]; try discriminate Hx; try discriminate Hy.
    cbn [mul]. apply round64_monotone. rewrite Ha0. lra.
Qed.

Lemma mul_not_NaN (a : Q) (x : number) :
  (0 <= a)%Q -> ((a == 0)%Q -> isFinite x = true) -> x <> NaN ->
  mul (Finite a) x <> NaN.
Proof.
  intros Ha Hzero Hx.
  assert (H : num_le (mul (Finite a) x) (mul (Finite a) x)).
  { apply mul_monotone; [exact Ha| |apply num_le_refl, Hx].
    intros Ha0. split; apply Hzero, Ha0. }
  apply num_le_not_NaN in H. tauto.
Qed.

Lemma Math_min_le_r (x y : number) :
  x <> NaN -> y <> NaN -> num_le (Math_min x y) y.
Proof.
  intros Hx Hy. unfold Math_min, num_le.
  destruct x as [a| | |], y as [b| | |]; cbn; try congruence; try reflexivity.
  - destruct (Qle_bool a b) eqn:E; cbn; [exact E|].
    apply Qle_bool_iff, Qle_refl.
  - apply Qle_bool_iff, Qle_refl.
Qed.

Lemma Math_min_monotone (x x' y : number) :
  num_le x x' -> y <> NaN -> num_le (Math_min x y) (Math_min x' y).
Proof.
  intros Hx Hy. unfold Math_min, num_le in *.
  destruct x as [a| | |], x' as [a'| | |], y as [b| | |]; cbn in *;
    try congruence;
    repeat match goal with
    | |- context [Qle_bool ?p ?q] => destruct (Qle_bool p q) eqn:?
    end; cbn; try congruence; try reflexivity;
    repeat match goal with
    | H : Qle_bool _ _ = true |- _ => apply Qle_bool_iff in H
    | H : Qle_bool ?p ?q = false |- _ =>
        assert (q < p)%Q
          by (apply Qnot_le_lt; intros X; apply Qle_bool_iff in X; congruence);
        clear H
    end; try (apply Qle_bool_iff; lra); try lra.
Qed.

(** The correctly rounded power is non-decreasing in the exponent for a
    base of at least 1. *)

Lemma pow64_monotone (b : Q) (j k : Z) :
  (1 <= b)%Q -> 0 <= j <= k ->
  num_le (pow64 (Finite b) j) (pow64 (Finite b) k).
Proof.
  intros Hb Hjk. unfold pow64.
  replace (j <? 0) with false by (symmetry; apply Z.ltb_ge; lia).
  replace (k <? 0) with false by (symmetry; apply Z.ltb_ge; lia).
  rewrite !andb_false_r.
  apply round64_monotone. apply Qpower_le_compat_l; [lia|exact Hb].
Qed.

(** A limit is only ever compared with an integer ([length >= maxSize],
    [reconnectAttempts >= maxAttempts]); in such a comparison a fractional
    limit acts as the next integer above it. *)
Lemma fractional_limit_acts_as_its_ceiling (x : Q) (k : Z) :
  num_leb (Finite x) (Finite (inject_Z k)) = (Qceiling x <=? k).
Proof.
  cbn [num_leb]. apply eq_true_iff_eq.
  rewrite Qle_bool_iff, Z.leb_le. split; intros H.
  - rewrite <- (Qceiling_Z k). apply Qceiling_resp_le, H.
  - apply Qle_trans with (inject_Z (Qceiling x)); [apply Qle_ceiling|].
    rewrite <- Zle_Qle. exact H.
Qed.

Lemma pow64_monotoneAt (e : Env) (b : Q) :
  Math_pow e = pow64 -> (1 <= b)%Q -> PowMonotoneAt e (Finite b).
Proof.
  intros He Hb j k Hjk. rewrite He. apply pow64_monotone; assumption.
Qed.

(** [mul] returns what the hardware product of two doubles returns, on a
    list of pairs that covers rounding up and down, ties, overflow, gradual
    underflow and the special values. *)
Lemma mul_agrees_with_binary64 : forallb mul_agrees Binary64.samples = true.
Proof. vm_compute. reflexivity. Qed.

(** ** Reconnection backoff *)

Lemma backoffDelayAt_unfold w n :
  backoffDelayAt w n
  = Math_min
      (mul (Reconnect.initialDelay (reconnect (config (env w))))
           (Math_pow (env w)
              (Reconnect.backoffMultiplier (reconnect (config (env w))))
              (n - 1)))
      (Reconnect.maxDelay (reconnect (config (env w)))).
Proof. reflexivity. Qed.

(** C4 (as stated) fails: with a multiplier of 2 and an initial delay below
    zero the computed delay decreases from attempt 1 to attempt 2. *)
Lemma backoff_decreases_for_negative_initial_delay :
  num_le (Finite 1)
         (Reconnect.backoffMultiplier
            (reconnect (config (env (newClient (Scenario.envOf Scenario.cfgNegativeDelay))))))
  /\ backoffDelayAt (newClient (Scenario.envOf Scenario.cfgNegativeDelay)) 1
     = Finite (-1000)
  /\ backoffDelayAt (newClient (Scenario.envOf Scenario.cfgNegativeDelay)) 2
     = Finite (-2000)
  /\ ~ num_le (backoffDelayAt (newClient (Scenario.envOf Scenario.cfgNegativeDelay)) 1)
              (backoffDelayAt (newClient (Scenario.envOf Scenario.cfgNegativeDelay)) 2).
Proof.
  split; [reflexivity|]. split; [reflexivity|]. split; [reflexivity|].
  intros H. vm_compute in H. discriminate H.
Qed.

(** An initial delay of zero does not help either: once the power overflows
    the product is [0 * Infinity], so the delay is [NaN], which is not below
    [maxDelay]. *)
Lemma backoff_not_a_number_for_zero_initial_delay :
  backoffDelayAt (newClient (Scenario.envOf Scenario.cfgZeroDelay)) 1 = Finite 0
  /\ backoffDelayAt (newClient (Scenario.envOf Scenario.cfgZeroDelay)) 2 = Finite 0
  /\ backoffDelayAt (newClient (Scenario.envOf Scenario.cfgZeroDelay)) 3 = NaN
  /\ ~ num_le (backoffDelayAt (newClient (Scenario.envOf Scenario.cfgZeroDelay)) 3)
              (Reconnect.maxDelay (reconnect Scenario.cfgZeroDelay)).
Proof.
  split; [vm_compute; reflexivity|]. split; [vm_compute; reflexivity|].
  split; [vm_compute; reflexivity|].
  intros H. vm_compute in H. discriminate H.
Qed.

(** C4 (amended): the delay for attempt n is
    Math.min(initialDelay * Math.pow(backoffMultiplier, n-1), maxDelay) in
    double arithmetic (the product rounded, Infinity and NaN propagated).
    For every configuration whose initialDelay is finite and not below zero
    (and, when it is zero, as long as the powers of the two attempts are
    finite) and whose maxDelay is not NaN, on a host whose Math.pow is
    non-decreasing in the exponent at the configured multiplier (as a
    correctly rounded power is for every multiplier of at least 1), the delay
    is non-decreasing in the attempt number and never exceeds maxDelay. With
    initialDelay 1000, maxDelay 5000 and backoffMultiplier 2 the delays of
    attempts 1 to 4 are 1000, 2000, 4000 and 5000. *)
Theorem backoff_delay_formula_monotone_capped
    (w : World) (a : Q) (n m : Z)
    (Hinit : Reconnect.initialDelay (reconnect (config (env w))) = Finite a)
    (Hpos : (0 <= a)%Q)
    (Hzero : (a == 0)%Q ->
             isFinite (Math_pow (env w)
                         (Reconnect.backoffMultiplier (reconnect (config (env w))))
                         (n - 1)) = true
             /\ isFinite (Math_pow (env w)
                            (Reconnect.backoffMultiplier (reconnect (config (env w))))
                            (m - 1)) = true)
    (Hcap : Reconnect.maxDelay (reconnect (config (env w))) <> NaN)
    (Hpow : PowMonotoneAt (env w)
              (Reconnect.backoffMultiplier (reconnect (config (env w)))))
    (Hnm : 1 <= n <= m) :
  backoffDelayAt w n
  = Math_min
      (mul (Reconnect.initialDelay (reconnect (config (env w))))
           (Math_pow (env w)
              (Reconnect.backoffMultiplier (reconnect (config (env w))))
              (n - 1)))
      (Reconnect.maxDelay (reconnect (config (env w))))
  /\ num_le (backoffDelayAt w n) (backoffDelayAt w m)
  /\ num_le (backoffDelayAt w m)
            (Reconnect.maxDelay (reconnect (config (env w))))
  /\ backoffDelayAt Scenario.fresh 1 = Finite 1000
  /\ backoffDelayAt Scenario.fresh 2 = Finite 2000
  /\ backoffDelayAt Scenario.fresh 3 = Finite 4000
  /\ backoffDelayAt Scenario.fresh 4 = Finite 5000.
Proof.
  rewrite !backoffDelayAt_unfold, Hinit.
  assert (Hpowers : num_le
            (Math_pow (env w)
               (Reconnect.backoffMultiplier (reconnect (config (env w)))) (n - 1))
            (Math_pow (env w)
               (Reconnect.backoffMultiplier (reconnect (config (env w)))) (m - 1)))
    by (apply Hpow; lia).
  split; [reflexivity|]. split; [|split].
  - apply Math_min_monotone; [|exact Hcap].
    apply mul_monotone; assumption.
  - apply Math_min_le_r; [|exact Hcap].
    apply mul_not_NaN; [exact Hpos| |].
    + intros Ha0. apply (Hzero Ha0).
    + apply num_le_not_NaN in Hpowers. tauto.
  - repeat split; vm_compute; reflexivity.
Qed.

Lemma backoff_delay_formula_monotone_capped_witness :
  num_le (backoffDelayAt Scenario.fresh 2) (backoffDelayAt Scenario.fresh 3).
Proof.
  apply (backoff_delay_formula_monotone_capped Scenario.fresh 1000 2 3).
  - reflexivity.
  - discriminate.
  - intros H. discriminate H.
  - discriminate.
  - apply (pow64_monotoneAt _ 2); [reflexivity | discriminate].
  - lia.
Defined.

(** ** Pending timers *)

Lemma find_after_filter (id : TimerId) (l : list Timer) :
  find (fun t => Nat.eqb (tid t) id)
       (filter (fun t => negb (Nat.eqb (tid t) id)) l) = None.
Proof.
  induction l as [|t l IH]; [reflexivity|].
  cbn [filter]. destruct (Nat.eqb (tid t) id) eqn:E; cbn [negb]; [exact IH|].
  cbn [find]. rewrite E. exact IH.
Qed.

Lemma filter_without_match (id : TimerId) (l : list Timer) :
  find (fun t => Nat.eqb (tid t) id) l = None ->
  filter (fun t => negb (Nat.eqb (tid t) id)) l = l.
Proof.
  induction l as [|t l IH]; [reflexivity|].
  cbn [find filter]. destruct (Nat.eqb (tid t) id) eqn:E; [discriminate|].
  intros H. cbn [negb]. rewrite (IH H). reflexivity.
Qed.

Lemma find_timer_clearTimer id w : find_timer id (clearTimer id w) = None.
Proof. unfold find_timer, clearTimer. cbn. apply find_after_filter. Qed.

Lemma host_clearTimer_not_pending id w :
  find_timer id w = None -> host (clearTimer id w) = host w.
Proof.
  unfold find_timer, clearTimer. intros H.
  destruct w as [e c [ss ts nt tr]]. cbn in *.
  rewrite (filter_without_match id ts H). reflexivity.
Qed.

(** ** Inbound pong *)

(** C7: a [pong] is consumed by [handleMessage] and never reaches the message
    subscribers; when a heartbeat-timeout handle is held the timer is
    cancelled and the handle dropped; when none is held nothing changes, and
    when the held handle has already expired the host (pending timers,
    sockets, trace) is left as it was. *)
Theorem pong_is_consumed_and_clears_timeout
    (w : World) (m : ServerMessage) (sock : SocketId)
    (Hpong : type m = "pong") :
  handleMessage (Some m) w = handlePong w
  /\ trace (host (handleMessage (Some m) w)) = trace (host w)
  /\ trace (host (step w (Socket_message sock (Some m)))) = trace (host w)
  /\ connectionStatus (this (handleMessage (Some m) w)) = connectionStatus (this w)
  /\ match heartbeatTimeoutTimer (this w) with
     | None => handleMessage (Some m) w = w
     | Some id =>
         handleMessage (Some m) w
         = set_heartbeatTimeoutTimer None (clearTimer id w)
         /\ heartbeatTimeoutTimer (this (handleMessage (Some m) w)) = None
         /\ find_timer id (handleMessage (Some m) w) = None
         /\ match find_timer id w with
            | Some _ => True
            | None => host (handleMessage (Some m) w) = host w
            end
     end.
Proof.
  assert (Hh : handleMessage (Some m) w = handlePong w).
  { unfold handleMessage. rewrite Hpong. reflexivity. }
  assert (Htr : trace (host (handlePong w)) = trace (host w)).
  { unfold handlePong. destruct (heartbeatTimeoutTimer (this w)); reflexivity. }
  split; [exact Hh|]. split; [rewrite Hh; exact Htr|]. split.
  { cbn [step]. destruct (nth_error (sockets (host w)) sock) as [s|]; [|reflexivity].
    destruct (readyState s); try reflexivity; rewrite Hh; exact Htr. }
  rewrite Hh. unfold handlePong.
  destruct (heartbeatTimeoutTimer (this w)) as [id|] eqn:Hid.
  - split; [reflexivity|]. split; [reflexivity|]. split; [reflexivity|].
    split.
    + apply (find_timer_clearTimer id w).
    + destruct (find_timer id w) eqn:Hf; [exact I|].
      apply (host_clearTimer_not_pending id w Hf).
  - split; reflexivity.
Qed.

Lemma pong_is_consumed_and_clears_timeout_witness :
  trace (host (step Scenario.online
                 (Socket_message 0%nat (Some (mkServerMessage "pong" "")))))
  = trace (host Scenario.online).
Proof.
  apply (pong_is_consumed_and_clears_timeout Scenario.online
           (mkServerMessage "pong" "") 0%nat).
  reflexivity.
Defined.

(** ** Flushing the queue *)

Lemma trace_emitAll os : forall w,
  trace (host (emitAll os w)) = trace (host w) ++ os.
Proof.
  induction os as [|o os IH]; intros w; cbn [emitAll fold_left].
  - rewrite app_nil_r. reflexivity.
  - change (fold_left (fun w' o' => emit o' w') os (emit o w))
      with (emitAll os (emit o w)).
    rewrite IH. cbn. rewrite <- app_assoc. reflexivity.
Qed.

Lemma this_emitAll os : forall w, this (emitAll os w) = this w.
Proof.
  induction os as [|o os IH]; intros w; [reflexivity|].
  cbn [emitAll fold_left].
  change (fold_left (fun w' o' => emit o' w') os (emit o w))
    with (emitAll os (emit o w)).
  rewrite IH. reflexivity.
Qed.

Lemma sendMessage_open m w sock :
  openSocket w = Some sock ->
  sendMessage m w
  = (Returns (match sendThrows (env w) m with None => true | Some _ => false end),
     emit (sendOutcome (env w) sock m) w).
Proof.
  unfold sendMessage, sendOutcome, emitError. intros ->.
  destruct (sendThrows (env w) m); reflexivity.
Qed.

Lemma forEach_sendMessage_open queue : forall w sock,
  openSocket w = Some sock ->
  forEach_sendMessage queue w
  = (Returns tt, emitAll (map (sendOutcome (env w) sock) queue) w).
Proof.
  induction queue as [|m queue IH]; intros w sock Hopen; [reflexivity|].
  cbn [forEach_sendMessage map emitAll fold_left]. unfold bind.
  rewrite (sendMessage_open m w sock Hopen).
  rewrite (IH (emit (sendOutcome (env w) sock m) w) sock); [reflexivity|].
  rewrite openSocket_emit. exact Hopen.
Qed.

Lemma forEach_sendMessage_fold queue : forall w sock,
  openSocket w = Some sock ->
  exec (forEach_sendMessage queue) w
  = fold_left (fun w' m => exec (sendMessage m) w') queue w.
Proof.
  induction queue as [|m queue IH]; intros w sock Hopen; [reflexivity|].
  cbn [forEach_sendMessage fold_left]. unfold exec at 1, bind.
  unfold exec at 2.
  rewrite (sendMessage_open m w sock Hopen). cbn [snd].
  apply (IH _ sock). rewrite openSocket_emit. exact Hopen.
Qed.

Lemma flushMessageQueue_open w sock :
  openSocket w = Some sock ->
  flushMessageQueue w
  = (Returns tt,
     match messageQueue (this w) with
     | [] => w
     | queue => emitAll (map (sendOutcome (env w) sock) queue) (set_messageQueue [] w)
     end).
Proof.
  intros Hopen. unfold flushMessageQueue.
  destruct (messageQueue (this w)) as [|m queue] eqn:Hq; [reflexivity|].
  apply (forEach_sendMessage_open (m :: queue) (set_messageQueue [] w) sock).
  exact Hopen.
Qed.

Lemma flushMessageQueue_effect w sock :
  openSocket w = Some sock ->
  messageQueue (this (snd (flushMessageQueue w))) = []
  /\ trace (host (snd (flushMessageQueue w)))
     = trace (host w) ++ map (sendOutcome (env w) sock) (messageQueue (this w))
  /\ connectionStatus (this (snd (flushMessageQueue w))) = connectionStatus (this w)
  /\ reconnectAttempts (this (snd (flushMessageQueue w))) = reconnectAttempts (this w).
Proof.
  intros Hopen. rewrite (flushMessageQueue_open w sock Hopen). cbn [snd].
  destruct (messageQueue (this w)) as [|m queue] eqn:Hq.
  - cbn [map]. rewrite app_nil_r. repeat split; [exact Hq].
  - rewrite trace_emitAll, this_emitAll. repeat split; reflexivity.
Qed.

(** C8: the claim fails where the object has two sockets. [handleOpen] does
    not look at which socket opened: after two calls of [connect()] the
    [open] event of the first socket dispatches [connected] and flushes while
    [this.ws] is the second socket, still connecting. Every message goes back
    to the queue, the [init] message pushes A out, nothing is transmitted and
    the queue is not empty; a further flush changes nothing.  The two
    reconnect timers left by a connection timeout lead to the same without a
    second call by the caller. *)
Lemma flush_after_open_of_replaced_socket_sends_nothing :
  state (connectionStatus (this Scenario.staleOpen)) = Connected
  /\ messageQueue (this Scenario.staleOpen)
     = [Scenario.B; InitMessage "session-1" "agent" 42]
  /\ transmitted (trace (host Scenario.staleOpen)) = []
  /\ messageQueue (this (exec flushMessageQueue Scenario.staleOpen))
     = [Scenario.B; InitMessage "session-1" "agent" 42]
  /\ state (connectionStatus (this Scenario.staleOpenAfterTimeout)) = Connected
  /\ messageQueue (this Scenario.staleOpenAfterTimeout)
     = [Scenario.B; InitMessage "session-1" "agent" 42]
  /\ transmitted (trace (host Scenario.staleOpenAfterTimeout)) = [].
Proof.
  repeat split; vm_compute; reflexivity.
Qed.

(** While the transport behind [this.ws] is open, [flushMessageQueue] empties
    the queue and passes every queued message, oldest first, to
    [sendMessage], the path of live messages; each message leaves its frame
    or, when its transmission fails, an error event, and a failure stops
    nothing: the messages after it are still sent and the queue is empty at
    the end. *)
Theorem flush_drains_queue_in_order
    (w : World) (sock : SocketId)
    (Hopen : openSocket w = Some sock) :
  fst (flushMessageQueue w) = Returns tt
  /\ messageQueue (this (exec flushMessageQueue w)) = []
  /\ trace (host (exec flushMessageQueue w))
     = trace (host w) ++ map (sendOutcome (env w) sock) (messageQueue (this w))
  /\ exec flushMessageQueue w
     = match messageQueue (this w) with
       | [] => w
       | queue =>
           fold_left (fun w' m => exec (sendMessage m) w') queue
             (set_messageQueue [] w)
       end
  /\ forall q1 a q2 b q3,
       messageQueue (this w) = q1 ++ a :: q2 ++ b :: q3 ->
       exists t1 t2 t3,
         trace (host (exec flushMessageQueue w))
         = t1 ++ sendOutcome (env w) sock a :: t2
              ++ sendOutcome (env w) sock b :: t3.
Proof.
  destruct (flushMessageQueue_effect w sock Hopen) as (Hempty & Htrace & _).
  split; [rewrite (flushMessageQueue_open w sock Hopen); reflexivity|].
  split; [exact Hempty|].
  split; [exact Htrace|]. split.
  { unfold exec at 1, flushMessageQueue.
    destruct (messageQueue (this w)) as [|m queue]; [reflexivity|].
    apply (forEach_sendMessage_fold (m :: queue) (set_messageQueue [] w) sock).
    exact Hopen. }
  intros q1 a q2 b q3 Hq. unfold exec. rewrite Htrace, Hq.
  exists (trace (host w) ++ map (sendOutcome (env w) sock) q1),
         (map (sendOutcome (env w) sock) q2),
         (map (sendOutcome (env w) sock) q3).
  rewrite map_app. cbn [map]. rewrite map_app. cbn [map].
  rewrite <- app_assoc. reflexivity.
Qed.

Lemma flush_drains_queue_in_order_witness :
  trace (host (exec flushMessageQueue Scenario.opening))
  = trace (host Scenario.opening)
    ++ [ErrorEvt "Converting circular structure to JSON";
        Transmit 0%nat Scenario.B].
Proof.
  apply (flush_drains_queue_in_order Scenario.opening 0%nat).
  reflexivity.
Defined.

(** ** Transport open *)

Lemma nth_error_update_nth {A} (f : A -> A) (l : list A) : forall n,
  nth_error (update_nth n f l) n = option_map f (nth_error l n).
Proof.
  induction l as [|x l IH]; intros [|n]; cbn; try reflexivity. apply IH.
Qed.

Lemma openSocket_after_open_event w sock s :
  ws (this w) = Some sock ->
  nth_error (sockets (host w)) sock = Some s ->
  openSocket
    (set_sockets (update_nth sock (set_readyState OPEN) (sockets (host w))) w)
  = Some sock.
Proof.
  intros Hws Hs. unfold openSocket. cbn. rewrite Hws.
  rewrite nth_error_update_nth, Hs. reflexivity.
Qed.

Lemma stopHeartbeat_frame w :
  env (stopHeartbeat w) = env w
  /\ trace (host (stopHeartbeat w)) = trace (host w)
  /\ nextTimer (host (stopHeartbeat w)) = nextTimer (host w)
  /\ sockets (host (stopHeartbeat w)) = sockets (host w)
  /\ ws (this (stopHeartbeat w)) = ws (this w)
  /\ messageQueue (this (stopHeartbeat w)) = messageQueue (this w)
  /\ connectionStatus (this (stopHeartbeat w)) = connectionStatus (this w)
  /\ reconnectAttempts (this (stopHeartbeat w)) = reconnectAttempts (this w).
Proof.
  unfold stopHeartbeat.
  destruct (heartbeatTimer (this w)) as [i|];
    cbn; destruct (heartbeatTimeoutTimer (this w)) as [j|];
    cbn; repeat split; reflexivity.
Qed.

Lemma startHeartbeat_frame w :
  env (startHeartbeat w) = env w
  /\ trace (host (startHeartbeat w))
     = trace (host w)
       ++ [Armed (mkTimer (nextTimer (host w)) HeartbeatInterval
                    (Heartbeat.interval (heartbeat (config (env w)))))]
  /\ openSocket (startHeartbeat w) = openSocket w
  /\ messageQueue (this (startHeartbeat w)) = messageQueue (this w)
  /\ connectionStatus (this (startHeartbeat w)) = connectionStatus (this w)
  /\ reconnectAttempts (this (startHeartbeat w)) = reconnectAttempts (this w).
Proof.
  destruct (stopHeartbeat_frame w) as (He & Ht & Hn & Hs & Hw & Hq & Hc & Hr).
  unfold startHeartbeat, setTimer, openSocket. cbn.
  rewrite He, Ht, Hn, Hs, Hw, Hq, Hc, Hr. repeat split; reflexivity.
Qed.

(** The world [handleOpen] leaves when [this.ws] is open. *)
Lemma handleOpen_open w sock :
  openSocket w = Some sock ->
  handleOpen w
  = (let w1 := updateConnectionStatus Connected None None
                 (set_reconnectAttempts 0 w) in
     let w2 :=
       emit (sendOutcome (env w) sock
               (InitMessage (sessionId (env w)) (navigatorUserAgent (env w))
                  (now (env w)))) w1 in
     let w3 :=
       if Heartbeat.enabled (heartbeat (config (env w)))
       then startHeartbeat w2 else w2 in
     flushMessageQueue w3).
Proof.
  intros Hopen. unfold handleOpen, bind, lift, ret. cbn zeta.
  rewrite (sendMessage_open _
             (updateConnectionStatus Connected None None (set_reconnectAttempts 0 w))
             sock Hopen).
  cbn [env updateConnectionStatus emit set_connectionStatus set_reconnectAttempts].
  destruct (Heartbeat.enabled (heartbeat (config (env w)))); reflexivity.
Qed.

(** C1 (as stated) fails: when the socket of [Scenario.backlog] opens, the
    [connected] status is the first thing dispatched; the init frame, the
    heartbeat interval and the flush of the queue all come after it. *)
Lemma connected_status_precedes_init_and_flush :
  exists post,
    trace (host (step Scenario.backlog (Socket_open 0%nat)))
    = trace (host Scenario.backlog)
      ++ ConnectionChange (mkStatus Connected None None (Some 42)) :: post
    /\ In (Transmit 0%nat (InitMessage "session-1" "agent" 42)) post
    /\ In (Armed (mkTimer 2%nat HeartbeatInterval 30000%Q)) post
    /\ In (Transmit 0%nat Scenario.B) post.
Proof.
  exists [Transmit 0%nat (InitMessage "session-1" "agent" 42);
          Armed (mkTimer 2%nat HeartbeatInterval 30000%Q);
          ErrorEvt "Converting circular structure to JSON";
          Transmit 0%nat Scenario.B].
  split; [reflexivity|]. cbn [In]. intuition.
Qed.

(** C1 (amended): when the current transport opens, the client resets the
    reconnect counter and dispatches the [connected] status first; after
    that, in this order, it sends the [init] message (session identifier and
    metadata), starts the heartbeat interval when the heartbeat is enabled,
    and flushes the queue oldest first. *)
Theorem open_dispatches_connected_then_init_heartbeat_flush
    (w : World) (sock : SocketId) (s : Socket)
    (Hws : ws (this w) = Some sock)
    (Hsock : nth_error (sockets (host w)) sock = Some s)
    (Hconnecting : readyState s = CONNECTING) :
  trace (host (step w (Socket_open sock)))
  = trace (host w)
    ++ [ConnectionChange (mkStatus Connected None None (Some (now (env w))))]
    ++ [sendOutcome (env w) sock
          (InitMessage (sessionId (env w)) (navigatorUserAgent (env w))
             (now (env w)))]
    ++ (if Heartbeat.enabled (heartbeat (config (env w)))
        then [Armed (mkTimer (nextTimer (host w)) HeartbeatInterval
                       (Heartbeat.interval (heartbeat (config (env w)))))]
        else [])
    ++ map (sendOutcome (env w) sock) (messageQueue (this w))
  /\ state (connectionStatus (this (step w (Socket_open sock)))) = Connected
  /\ reconnectAttempts (this (step w (Socket_open sock))) = 0
  /\ messageQueue (this (step w (Socket_open sock))) = [].
Proof.
  cbn [step]. rewrite Hsock, Hconnecting.
  pose proof (openSocket_after_open_event w sock s Hws Hsock) as Hopen.
  set (w0 := set_sockets
               (update_nth sock (set_readyState OPEN) (sockets (host w))) w) in *.
  unfold exec. rewrite (handleOpen_open w0 sock Hopen). cbn zeta.
  set (w1 := updateConnectionStatus Connected None None (set_reconnectAttempts 0 w0)).
  set (w2 := emit _ w1).
  set (w3 := if Heartbeat.enabled (heartbeat (config (env w0)))
             then startHeartbeat w2 else w2).
  assert (H3 :
    env w3 = env w
    /\ openSocket w3 = Some sock
    /\ messageQueue (this w3) = messageQueue (this w)
    /\ state (connectionStatus (this w3)) = Connected
    /\ reconnectAttempts (this w3) = 0
    /\ trace (host w3)
       = trace (host w)
         ++ [ConnectionChange (mkStatus Connected None None (Some (now (env w))))]
         ++ [sendOutcome (env w) sock
               (InitMessage (sessionId (env w)) (navigatorUserAgent (env w))
                  (now (env w)))]
         ++ (if Heartbeat.enabled (heartbeat (config (env w)))
             then [Armed (mkTimer (nextTimer (host w)) HeartbeatInterval
                            (Heartbeat.interval (heartbeat (config (env w)))))]
             else [])).
  { subst w3. change (env w0) with (env w).
    destruct (Heartbeat.enabled (heartbeat (config (env w)))).
    - destruct (startHeartbeat_frame w2) as (He & Ht & Ho & Hq & Hc & Hr).
      rewrite He, Ht, Ho, Hq, Hc, Hr. subst w2 w1 w0. cbn.
      rewrite <- !app_assoc. repeat split; try reflexivity. exact Hopen.
    - subst w2 w1 w0. cbn.
      rewrite <- !app_assoc. repeat split; try reflexivity. exact Hopen. }
  destruct H3 as (Henv3 & Hopen3 & Hq3 & Hst3 & Hra3 & Htr3).
  destruct (flushMessageQueue_effect w3 sock Hopen3) as (Hempty & Htr & Hcs & Hra).
  split; [|split; [|split]].
  - cbn [clearTimer set_timers host trace]. rewrite Htr, Htr3, Henv3, Hq3.
    rewrite <- !app_assoc. reflexivity.
  - cbn [clearTimer set_timers this]. rewrite Hcs. exact Hst3.
  - cbn [clearTimer set_timers this]. rewrite Hra. exact Hra3.
  - exact Hempty.
Qed.

Lemma open_dispatches_connected_then_init_heartbeat_flush_witness :
  trace (host (step Scenario.backlog (Socket_open 0%nat)))
  = trace (host Scenario.backlog)
    ++ [ConnectionChange (mkStatus Connected None None (Some 42));
        Transmit 0%nat (InitMessage "session-1" "agent" 42);
        Armed (mkTimer 2%nat HeartbeatInterval 30000%Q);
        ErrorEvt "Converting circular structure to JSON";
        Transmit 0%nat Scenario.B].
Proof.
  apply (open_dispatches_connected_then_init_heartbeat_flush
           Scenario.backlog 0%nat (mkSocket CONNECTING 1%nat));
    reflexivity.
Defined.

(** ** One transport at a time *)

Lemma connect_noop_when_open w sock :
  openSocket w = Some sock -> connect w = w.
Proof. unfold connect. intros ->. reflexivity. Qed.

(** [connect()] with no open transport and a constructor that succeeds adds
    one connecting socket and leaves the sockets made before untouched. *)
Lemma connect_adds_a_socket w :
  openSocket w = None -> ctorThrows (env w) = None ->
  sockets (host (connect w))
  = sockets (host w) ++ [mkSocket CONNECTING (nextTimer (host w))]
  /\ ws (this (connect w)) = Some (List.length (sockets (host w))).
Proof.
  unfold connect. intros -> Hc. cbn [env updateConnectionStatus emit
    set_connectionStatus set_isIntentionalClose].
  rewrite Hc. split; reflexivity.
Qed.

(** C9 is broken by the code: [connect()] only returns early when the
    transport is OPEN.  Called again while the first socket is still
    connecting it makes a second socket and leaves the first one alive with
    its handlers attached.  The same happens without any second call after a
    connection timeout, when the two reconnect timers of
    [Scenario.timedOut] fire one after the other. *)
Theorem connect_while_connecting_leaves_two_live_transports :
  List.length (liveTransports (run Scenario.fresh [Call_connect])) = 1%nat
  /\ List.length (liveTransports (run Scenario.fresh [Call_connect; Call_connect]))
     = 2%nat
  /\ sockets (host (run Scenario.fresh [Call_connect; Call_connect]))
     = [mkSocket CONNECTING 1%nat; mkSocket CONNECTING 2%nat]
  /\ List.length
       (liveTransports (run Scenario.timedOut [Timer_fire 2%nat; Timer_fire 3%nat]))
     = 2%nat.
Proof. repeat split; reflexivity. Qed.

(** ** disconnect *)

(** What [disconnect()] does release: the handles held in the three timer
    fields are no longer pending, the socket behind [this.ws] is no longer
    live, and the status is [disconnected]. *)
Lemma disconnect_releases_what_the_fields_hold w :
  state (connectionStatus (this (disconnect w))) = Disconnected
  /\ ws (this (disconnect w)) = None
  /\ reconnectTimer (this (disconnect w)) = None
  /\ heartbeatTimer (this (disconnect w)) = None
  /\ heartbeatTimeoutTimer (this (disconnect w)) = None
  /\ isIntentionalClose (this (disconnect w)) = true
  /\ match reconnectTimer (this w) with
     | Some id => find_timer id (disconnect w) = None
     | None => True
     end.
Proof.
  unfold disconnect, cleanup, stopHeartbeat.
  destruct w as [e [w0 cs ra rt ic ht htt q] [ss ts nt tr]]. cbn.
  destruct ht as [h|]; cbn; destruct htt as [h'|]; cbn;
    destruct rt as [r|]; cbn; destruct w0 as [k|]; cbn;
    repeat split; try reflexivity;
    unfold find_timer; cbn; apply find_after_filter.
Qed.

(** C6 is broken by the code: [handleReconnect] overwrites
    [this.reconnectTimer] without clearing the handle it held, so after a
    connection timeout followed by the [close] event two reconnect timers are
    pending and [cleanup] cancels only the second.  After [disconnect()] the
    first one is still pending; when it fires, [connect()] runs, the status
    leaves [disconnected] for [connecting] and a new socket is made. *)
Theorem disconnect_leaves_orphan_reconnect_timer :
  pendingReconnects Scenario.timedOut
  = [mkTimer 2%nat ReconnectTimer 1000%Q; mkTimer 3%nat ReconnectTimer 2000%Q]
  /\ reconnectTimer (this Scenario.timedOut) = Some 3%nat
  /\ state (connectionStatus (this (step Scenario.timedOut Call_disconnect)))
     = Disconnected
  /\ pendingReconnects (step Scenario.timedOut Call_disconnect)
     = [mkTimer 2%nat ReconnectTimer 1000%Q]
  /\ state (connectionStatus
              (this (run Scenario.timedOut [Call_disconnect; Timer_fire 2%nat])))
     = Connecting
  /\ trace (host (run Scenario.timedOut [Call_disconnect; Timer_fire 2%nat]))
     = trace (host (step Scenario.timedOut Call_disconnect))
       ++ [ConnectionChange (mkStatus Connecting None None None);
           NewWebSocket 1%nat;
           Armed (mkTimer 4%nat ConnectionTimeout 10000%Q)]
  /\ List.length
       (liveTransports (run Scenario.timedOut [Call_disconnect; Timer_fire 2%nat]))
     = 1%nat.
Proof. repeat split; reflexivity. Qed.

(** ** Giving up after the configured number of attempts *)

Lemma nth_error_last {A} (pre : list A) (s : A) :
  nth_error (pre ++ [s]) (List.length pre) = Some s.
Proof. induction pre; cbn; auto. Qed.

Lemma update_nth_last {A} (f : A -> A) (pre : list A) (s : A) :
  update_nth (List.length pre) f (pre ++ [s]) = pre ++ [f s].
Proof. induction pre; cbn; congruence. Qed.


Lemma stopHeartbeat_idle w :
  heartbeatTimer (this w) = None -> heartbeatTimeoutTimer (this w) = None ->
  stopHeartbeat w = w.
Proof. unfold stopHeartbeat. intros -> H. cbv zeta. rewrite H. reflexivity. Qed.

Lemma handleReconnect_gives_up w :
  reconnectEnabled w = true -> isIntentionalClose (this w) = false ->
  attemptLimit w <= reconnectAttempts (this w) ->
  handleReconnect w
  = updateConnectionStatus Error (Some "Max reconnection attempts reached") None w.
Proof.
  unfold handleReconnect, reconnectEnabled, attemptLimit. intros -> -> Hge.
  cbn [negb orb].
  destruct (Z.geb_spec (reconnectAttempts (this w))
              (Reconnect.maxAttempts (reconnect (config (env w))))); [reflexivity|lia].
Qed.

Lemma handleReconnect_schedules w :
  reconnectEnabled w = true -> isIntentionalClose (this w) = false ->
  reconnectAttempts (this w) < attemptLimit w ->
  handleReconnect w
  = updateConnectionStatus Reconnecting None (Some (reconnectAttempts (this w) + 1))
      (set_reconnectTimer (Some (nextTimer (host w)))
         (snd (setTimer ReconnectTimer
                 (backoffDelayAt w (reconnectAttempts (this w) + 1))
                 (set_reconnectAttempts (reconnectAttempts (this w) + 1) w)))).
Proof.
  unfold handleReconnect, reconnectEnabled, attemptLimit. intros -> -> Hlt.
  cbn [negb orb].
  destruct (Z.geb_spec (reconnectAttempts (this w))
              (Reconnect.maxAttempts (reconnect (config (env w))))); [lia|reflexivity].
Qed.

Lemma handleClose_unintentional w :
  heartbeatTimer (this w) = None -> heartbeatTimeoutTimer (this w) = None ->
  isIntentionalClose (this w) = false ->
  handleClose w = handleReconnect (updateConnectionStatus Reconnecting None None w).
Proof.
  intros H1 H2 H3. unfold handleClose. rewrite (stopHeartbeat_idle w H1 H2).
  cbv zeta. rewrite H3. reflexivity.
Qed.

Lemma closeCurrent_schedules e pre (t : TimerId) cs k rt q ts (nt : TimerId) tr :
  Reconnect.enabled (reconnect (config e)) = true ->
  k < Reconnect.maxAttempts (reconnect (config e)) ->
  exists tr',
  closeCurrent
    (mkWorld e (mkClient (Some (List.length pre)) cs k rt false None None q)
       (mkHost (pre ++ [mkSocket CONNECTING t]) ts nt tr))
  = mkWorld e
      (mkClient (Some (List.length pre))
         (mkStatus Reconnecting None (Some (k + 1)) (lastConnected cs))
         (k + 1) (Some nt) false None None q)
      (mkHost (pre ++ [mkSocket CLOSED t])
         (ts ++ [mkTimer nt ReconnectTimer (backoffDelayAt (newClient e) (k + 1))])
         (S nt) tr').
Proof.
  intros Hen Hk. unfold closeCurrent. cbn [ws this step host sockets].
  rewrite nth_error_last. cbn [readyState].
  rewrite update_nth_last.
  rewrite handleClose_unintentional by reflexivity.
  rewrite handleReconnect_schedules by (try reflexivity; assumption).
  eexists. reflexivity.
Qed.

Lemma closeCurrent_gives_up e pre (t : TimerId) cs k rt q ts (nt : TimerId) tr :
  Reconnect.enabled (reconnect (config e)) = true ->
  Reconnect.maxAttempts (reconnect (config e)) <= k ->
  exists tr',
  closeCurrent
    (mkWorld e (mkClient (Some (List.length pre)) cs k rt false None None q)
       (mkHost (pre ++ [mkSocket CONNECTING t]) ts nt tr))
  = mkWorld e
      (mkClient (Some (List.length pre))
         (mkStatus Error (Some "Max reconnection attempts reached") None
            (lastConnected cs))
         k rt false None None q)
      (mkHost (pre ++ [mkSocket CLOSED t]) ts nt tr').
Proof.
  intros Hen Hk. unfold closeCurrent. cbn [ws this step host sockets].
  rewrite nth_error_last. cbn [readyState].
  rewrite update_nth_last.
  rewrite handleClose_unintentional by reflexivity.
  rewrite handleReconnect_gives_up by (try reflexivity; assumption).
  eexists. reflexivity.
Qed.

Lemma find_fresh_last (id : TimerId) (ts : list Timer) (t : Timer) :
  tid t = id ->
  Forall (fun x => (tid x < id)%nat) ts ->
  find (fun x => Nat.eqb (tid x) id) (ts ++ [t]) = Some t.
Proof.
  intros Ht. induction 1 as [|x ts Hx _ IH]; cbn.
  - rewrite Ht, Nat.eqb_refl. reflexivity.
  - destruct (Nat.eqb_spec (tid x) id); [lia|exact IH].
Qed.

Lemma filter_fresh_last (id : TimerId) (ts : list Timer) (t : Timer) :
  tid t = id ->
  Forall (fun x => (tid x < id)%nat) ts ->
  filter (fun x => negb (Nat.eqb (tid x) id)) (ts ++ [t]) = ts.
Proof.
  intros Ht. induction 1 as [|x ts Hx _ IH]; cbn.
  - rewrite Ht, Nat.eqb_refl. reflexivity.
  - destruct (Nat.eqb_spec (tid x) id); [lia|]. cbn. rewrite IH. reflexivity.
Qed.

Lemma connect_opens w :
  openSocket w = None -> ctorThrows (env w) = None ->
  connect w
  = snd (setTimer ConnectionTimeout 10000%Q
           (emit (NewWebSocket (List.length (sockets (host w))))
              (set_ws (Some (List.length (sockets (host w))))
                 (set_sockets
                    (sockets (host w) ++ [mkSocket CONNECTING (nextTimer (host w))])
                    (updateConnectionStatus Connecting None None
                       (set_isIntentionalClose false w)))))).
Proof.
  unfold connect. intros -> Hc.
  cbn [env updateConnectionStatus emit set_connectionStatus set_isIntentionalClose].
  rewrite Hc. reflexivity.
Qed.

Lemma fireReconnect_connects e pre (t : TimerId) cs k q ts (nt : TimerId) tr d :
  ctorThrows e = None ->
  Forall (fun x => (tid x < nt)%nat) ts ->
  exists tr',
  fireReconnect
    (mkWorld e (mkClient (Some (List.length pre)) cs k (Some nt) false None None q)
       (mkHost (pre ++ [mkSocket CLOSED t]) (ts ++ [mkTimer nt ReconnectTimer d])
          (S nt) tr))
  = mkWorld e
      (mkClient (Some (List.length (pre ++ [mkSocket CLOSED t])))
         (mkStatus Connecting None None (lastConnected cs))
         k (Some nt) false None None q)
      (mkHost ((pre ++ [mkSocket CLOSED t]) ++ [mkSocket CONNECTING (S nt)])
         (ts ++ [mkTimer (S nt) ConnectionTimeout 10000%Q])
         (S (S nt)) tr').
Proof.
  intros Hc Hts. unfold fireReconnect. cbn [reconnectTimer this step].
  unfold find_timer. cbn [host timers].
  rewrite (find_fresh_last nt ts (mkTimer nt ReconnectTimer d) eq_refl Hts).
  cbn [kind runTimer onReconnectTimer]. unfold clearTimer. cbn [host timers].
  rewrite (filter_fresh_last nt ts (mkTimer nt ReconnectTimer d) eq_refl Hts).
  rewrite connect_opens.
  - eexists. reflexivity.
  - unfold openSocket. cbn [set_timers ws this host sockets].
    rewrite nth_error_last. reflexivity.
  - exact Hc.
Qed.

Lemma no_reconnects_among_timeouts (ts : list Timer) :
  Forall (fun x => kind x = ConnectionTimeout) ts ->
  filter (fun t => match kind t with ReconnectTimer => true | _ => false end) ts = [].
Proof.
  induction 1 as [|x ts Hx _ IH]; [reflexivity|].
  cbn [filter]. rewrite Hx. exact IH.
Qed.

Lemma attempting_fresh e :
  ctorThrows e = None -> Attempting e 0 (connect (newClient e)).
Proof.
  intros Hc. rewrite connect_opens by (try reflexivity; exact Hc).
  exists [], 1%nat, (mkStatus Connecting None None None), None, [],
         [mkTimer 1%nat ConnectionTimeout 10000%Q], 2%nat.
  eexists. split; [reflexivity|]. split; [constructor|]. split; [|reflexivity].
  repeat constructor.
Qed.

Lemma attempting_step e k w :
  Reconnect.enabled (reconnect (config e)) = true ->
  ctorThrows e = None ->
  k < Reconnect.maxAttempts (reconnect (config e)) ->
  Attempting e k w ->
  Attempting e (k + 1) (failedAttempt w)
  /\ state (connectionStatus (this (closeCurrent w))) = Reconnecting
  /\ reconnectAttempt (connectionStatus (this (closeCurrent w))) = Some (k + 1)
  /\ pendingReconnects (closeCurrent w)
     = [mkTimer (nextTimer (host w)) ReconnectTimer
          (backoffDelayAt (newClient e) (k + 1))].
Proof.
  intros Hen Hc Hk (pre & t & cs & rt & q & ts & nt & tr & -> & Hpre & Hts & Hcs).
  destruct (closeCurrent_schedules e pre t cs k rt q ts nt tr Hen Hk) as [tr1 E1].
  assert (Hlt : Forall (fun x => (tid x < nt)%nat) ts).
  { eapply Forall_impl; [|exact Hts]. cbn. intros x [_ Hx]. exact Hx. }
  assert (Hkind : Forall (fun x => kind x = ConnectionTimeout) ts).
  { eapply Forall_impl; [|exact Hts]. cbn. intros x [Hx _]. exact Hx. }
  unfold failedAttempt. rewrite E1.
  destruct (fireReconnect_connects e pre t
              (mkStatus Reconnecting None (Some (k + 1)) (lastConnected cs))
              (k + 1) q ts nt tr1 (backoffDelayAt (newClient e) (k + 1)) Hc Hlt)
    as [tr2 E2].
  rewrite E2. split; [|split; [reflexivity|split; [reflexivity|]]].
  - exists (pre ++ [mkSocket CLOSED t]), (S nt),
           (mkStatus Connecting None None (lastConnected cs)), (Some nt), q,
           (ts ++ [mkTimer (S nt) ConnectionTimeout 10000%Q]), (S (S nt)), tr2.
    split; [reflexivity|]. split; [|split; [|reflexivity]].
    + apply Forall_app. split; [exact Hpre|]. repeat constructor.
    + apply Forall_app. split.
      * eapply Forall_impl; [|exact Hts]. cbn. intros x [Hx1 Hx2]. split; [exact Hx1|lia].
      * repeat constructor.
  - unfold pendingReconnects. cbn [host timers]. rewrite filter_app.
    rewrite (no_reconnects_among_timeouts ts Hkind). reflexivity.
Qed.

Lemma attempting_iter e n :
  Reconnect.enabled (reconnect (config e)) = true ->
  ctorThrows e = None ->
  Z.of_nat n <= Reconnect.maxAttempts (reconnect (config e)) ->
  Attempting e (Z.of_nat n) (Nat.iter n failedAttempt (connect (newClient e))).
Proof.
  intros Hen Hc. induction n as [|n IH]; intros Hn.
  - apply attempting_fresh. exact Hc.
  - cbn [Nat.iter nat_rect]. replace (Z.of_nat (S n)) with (Z.of_nat n + 1) by lia.
    apply attempting_step; [exact Hen | exact Hc | lia | apply IH; lia].
Qed.

Lemma attempting_gives_up e k w :
  Reconnect.enabled (reconnect (config e)) = true ->
  Reconnect.maxAttempts (reconnect (config e)) <= k ->
  Attempting e k w ->
  connectionStatus (this (closeCurrent w))
  = mkStatus Error (Some "Max reconnection attempts reached") None
      (lastConnected (connectionStatus (this w)))
  /\ pendingReconnects (closeCurrent w) = []
  /\ timers (host (closeCurrent w)) = timers (host w)
  /\ Quiet (closeCurrent w).
Proof.
  intros Hen Hk (pre & t & cs & rt & q & ts & nt & tr & -> & Hpre & Hts & Hcs).
  destruct (closeCurrent_gives_up e pre t cs k rt q ts nt tr Hen Hk) as [tr1 E1].
  assert (Hkind : Forall (fun x => kind x = ConnectionTimeout) ts).
  { eapply Forall_impl; [|exact Hts]. cbn. intros x [Hx _]. exact Hx. }
  rewrite E1. split; [reflexivity|]. split; [|split; [reflexivity|]].
  - apply (no_reconnects_among_timeouts ts Hkind).
  - split; [|split; [exact Hkind | discriminate]].
    cbn [host sockets]. apply Forall_app. split; [exact Hpre|]. repeat constructor.
Qed.

Lemma quiet_step w ev :
  Quiet w -> hostEvent ev = true ->
  Quiet (step w ev)
  /\ this (step w ev) = this w
  /\ trace (host (step w ev)) = trace (host w).
Proof.
  intros (Hs & Ht & Hst) Hev.
  assert (Hclosed : forall sock s,
            nth_error (sockets (host w)) sock = Some s -> readyState s = CLOSED).
  { intros sock s Hn. apply nth_error_In in Hn.
    rewrite Forall_forall in Hs. apply Hs. exact Hn. }
  destruct ev as [| |m|sock|sock data|sock|sock|id]; try discriminate; cbn [step].
  - destruct (nth_error (sockets (host w)) sock) as [s|] eqn:Hn;
      [rewrite (Hclosed sock s Hn)|]; repeat split; assumption.
  - destruct (nth_error (sockets (host w)) sock) as [s|] eqn:Hn;
      [rewrite (Hclosed sock s Hn)|]; repeat split; assumption.
  - destruct (nth_error (sockets (host w)) sock) as [s|] eqn:Hn;
      [rewrite (Hclosed sock s Hn)|]; repeat split; assumption.
  - destruct (nth_error (sockets (host w)) sock) as [s|] eqn:Hn;
      [rewrite (Hclosed sock s Hn)|]; repeat split; assumption.
  - unfold find_timer.
    destruct (find (fun t => Nat.eqb (tid t) id) (timers (host w))) as [t|] eqn:Hf;
      [|repeat split; assumption].
    apply find_some in Hf. destruct Hf as [Hin _].
    rewrite Forall_forall in Ht. rewrite (Ht t Hin).
    cbn [runTimer]. unfold onConnectionTimeout.
    change (state (connectionStatus (this (clearTimer id w))))
      with (state (connectionStatus (this w))).
    destruct (state (connectionStatus (this w))) eqn:Est;
      try congruence; cbn [ConnectionState_eqb];
      (split; [|split; reflexivity]);
      (split; [exact Hs|split; [|cbn; rewrite Est; discriminate]]);
      cbn; rewrite Forall_forall; intros x Hx; apply filter_In in Hx;
      apply Ht; tauto.
Qed.

Lemma quiet_run es : forall w,
  Quiet w -> forallb hostEvent es = true ->
  Quiet (run w es)
  /\ this (run w es) = this w
  /\ trace (host (run w es)) = trace (host w).
Proof.
  induction es as [|ev es IH]; intros w Hq Hes;
    [split; [exact Hq | split; reflexivity]|].
  cbn [forallb] in Hes. apply andb_prop in Hes. destruct Hes as [Hev Hes].
  destruct (quiet_step w ev Hq Hev) as (Hq1 & Hthis1 & Htr1).
  destruct (IH (step w ev) Hq1 Hes) as (Hq2 & Hthis2 & Htr2).
  cbn [run fold_left]. change (fold_left step es (step w ev)) with (run (step w ev) es).
  rewrite Hthis2, Htr2, Hthis1, Htr1. split; [exact Hq2 | split; reflexivity].
Qed.

(** C5 (as stated) fails: with [maxAttempts = 4], after four unintentional
    closures in a row the status is [reconnecting] (attempt 4) and the fourth
    reconnect timer, of 5000 ms, is pending; the delays armed so far are
    1000, 2000, 4000 and 5000.  The status [error] comes with the closure
    after that. *)
Lemma four_closures_still_reconnecting :
  attemptLimit Scenario.fresh = 4
  /\ state (connectionStatus (this Scenario.fourClosures)) = Reconnecting
  /\ reconnectAttempt (connectionStatus (this Scenario.fourClosures)) = Some 4
  /\ pendingReconnects Scenario.fourClosures
     = [mkTimer 8%nat ReconnectTimer 5000%Q]
  /\ reconnectDelays (trace (host Scenario.fourClosures))
     = [Finite 1000; Finite 2000; Finite 4000; Finite 5000]
  /\ connectionStatus
       (this (run Scenario.fourClosures [Timer_fire 8%nat; Socket_close 4%nat]))
     = mkStatus Error (Some "Max reconnection attempts reached") None None.
Proof. repeat split; reflexivity. Qed.

(** C5 (amended): with reconnection enabled, each of the first [maxAttempts]
    unintentional closures in a row (each followed by the firing of its
    reconnect timer) schedules a reconnect: the status is [reconnecting] with
    the attempt number and one reconnect timer of the backoff delay is
    pending.  The closure after these, met with the counter equal to
    [maxAttempts], sets the status [error] with the message
    "Max reconnection attempts reached" and arms no timer; no reconnect timer
    is pending then, and whatever the host raises afterwards (timers, socket
    events) changes neither the object nor the trace: no [connect()] runs
    until the caller calls it.  In any world, [handleReconnect] met with the
    counter at or above [maxAttempts] only sets that [error] status. *)
Theorem error_on_closure_after_max_attempts
    (e : Env) (n : nat) (es : list Event)
    (Hen : Reconnect.enabled (reconnect (config e)) = true)
    (Hctor : ctorThrows e = None)
    (Hmax : Reconnect.maxAttempts (reconnect (config e)) = Z.of_nat n)
    (Hes : forallb hostEvent es = true) :
  (forall k, (k < n)%nat ->
     state (connectionStatus (this (closeCurrent (afterFailures e k))))
     = Reconnecting
     /\ reconnectAttempt (connectionStatus (this (closeCurrent (afterFailures e k))))
        = Some (Z.of_nat k + 1)
     /\ pendingReconnects (closeCurrent (afterFailures e k))
        = [mkTimer (nextTimer (host (afterFailures e k))) ReconnectTimer
             (backoffDelayAt (newClient e) (Z.of_nat k + 1))])
  /\ reconnectAttempts (this (afterFailures e n)) = Z.of_nat n
  /\ state (connectionStatus (this (afterFailures e n))) = Connecting
  /\ state (connectionStatus (this (closeCurrent (afterFailures e n)))) = Error
  /\ error (connectionStatus (this (closeCurrent (afterFailures e n))))
     = Some "Max reconnection attempts reached"
  /\ timers (host (closeCurrent (afterFailures e n)))
     = timers (host (afterFailures e n))
  /\ pendingReconnects (closeCurrent (afterFailures e n)) = []
  /\ this (run (closeCurrent (afterFailures e n)) es)
     = this (closeCurrent (afterFailures e n))
  /\ trace (host (run (closeCurrent (afterFailures e n)) es))
     = trace (host (closeCurrent (afterFailures e n)))
  /\ (forall w,
        reconnectEnabled w = true -> isIntentionalClose (this w) = false ->
        attemptLimit w <= reconnectAttempts (this w) ->
        handleReconnect w
        = updateConnectionStatus Error
            (Some "Max reconnection attempts reached") None w).
Proof.
  assert (Hat : forall k, (k <= n)%nat -> Attempting e (Z.of_nat k) (afterFailures e k)).
  { intros k Hk. apply attempting_iter; [exact Hen | exact Hctor | lia]. }
  split.
  { intros k Hk.
    destruct (attempting_step e (Z.of_nat k) (afterFailures e k) Hen Hctor)
      as (_ & H1 & H2 & H3); [lia | apply Hat; lia |].
    repeat split; assumption. }
  pose proof (Hat n (le_n n)) as Hn.
  destruct (attempting_gives_up e (Z.of_nat n) (afterFailures e n) Hen)
    as (Hst & Hpend & Htimers & Hquiet); [lia | exact Hn |].
  destruct (quiet_run es _ Hquiet Hes) as (_ & Hthis & Htrace).
  destruct Hn as (pre & t & cs & rt & q & ts & nt & tr & Hw & _ & _ & Hcs).
  split; [rewrite Hw; reflexivity|].
  split; [rewrite Hw; exact Hcs|].
  split; [rewrite Hst; reflexivity|].
  split; [rewrite Hst; reflexivity|].
  split; [exact Htimers|].
  split; [exact Hpend|].
  split; [exact Hthis|].
  split; [exact Htrace|].
  intros w. apply handleReconnect_gives_up.
Qed.

Lemma error_on_closure_after_max_attempts_witness :
  state (connectionStatus
           (this (closeCurrent (afterFailures (Scenario.envOf Scenario.cfg) 4))))
  = Error
  /\ trace (host (run (closeCurrent (afterFailures (Scenario.envOf Scenario.cfg) 4))
                    [Timer_fire 1%nat; Socket_error 0%nat; Timer_fire 8%nat]))
     = trace (host (closeCurrent (afterFailures (Scenario.envOf Scenario.cfg) 4))).
Proof.
  destruct (error_on_closure_after_max_attempts
              (Scenario.envOf Scenario.cfg) 4%nat
              [Timer_fire 1%nat; Socket_error 0%nat; Timer_fire 8%nat]
              eq_refl eq_refl eq_refl eq_refl)
    as (_ & _ & _ & Hst & _ & _ & _ & _ & Htr & _).
  split; [exact Hst | exact Htr].
Defined.

(** * Beyond the claims: invariants and compositions *)

(** ** Keeping a property through effects *)

Lemma EffKeeps_bind {A B} (P : World -> Prop) (m : Eff A) (k : A -> Eff B) :
  EffKeeps P m -> (forall a, EffKeeps P (k a)) -> EffKeeps P (bind m k).
Proof.
  intros Hm Hk w Hw. unfold bind. specialize (Hm w Hw).
  destruct (m w) as [[a|e] w']; cbn [snd] in *; [apply Hk; exact Hm | exact Hm].
Qed.

Lemma EffKeeps_lift (P : World -> Prop) (f : World -> World) :
  (forall w, P w -> P (f w)) -> EffKeeps P (lift f).
Proof. intros Hf w Hw. apply Hf. exact Hw. Qed.

Lemma EffKeeps_ret {A} (P : World -> Prop) (a : A) : EffKeeps P (ret a).
Proof. intros w Hw. exact Hw. Qed.

Lemma EffKeeps_forEach (P : World -> Prop) :
  (forall m, EffKeeps P (sendMessage m)) ->
  forall queue, EffKeeps P (forEach_sendMessage queue).
Proof.
  intros Hs. induction queue as [|m queue IH]; cbn [forEach_sendMessage].
  - apply EffKeeps_ret.
  - apply EffKeeps_bind; [apply Hs | intros _; exact IH].
Qed.

Lemma EffKeeps_flush (P : World -> Prop) :
  (forall m, EffKeeps P (sendMessage m)) ->
  (forall w, P w -> P (set_messageQueue [] w)) ->
  EffKeeps P flushMessageQueue.
Proof.
  intros Hs He w Hw. unfold flushMessageQueue.
  destruct (messageQueue (this w)) as [|m queue]; [exact Hw|].
  apply (EffKeeps_forEach P Hs). apply He. exact Hw.
Qed.

Lemma EffKeeps_handleOpen (P : World -> Prop) :
  (forall m, EffKeeps P (sendMessage m)) ->
  (forall w, P w -> P (set_messageQueue [] w)) ->
  (forall w, P w -> P (set_reconnectAttempts 0 w)) ->
  (forall w, P w -> P (updateConnectionStatus Connected None None w)) ->
  (forall w, P w -> P (startHeartbeat w)) ->
  EffKeeps P handleOpen.
Proof.
  intros Hs He Hr Hu Hh. unfold handleOpen.
  apply EffKeeps_bind; [apply EffKeeps_lift, Hr | intros _].
  apply EffKeeps_bind; [apply EffKeeps_lift, Hu | intros _].
  apply EffKeeps_bind; [intros w Hw; apply Hs; exact Hw | intros _].
  apply EffKeeps_bind; [|intros _; apply EffKeeps_flush; assumption].
  intros w Hw. destruct (Heartbeat.enabled (heartbeat (config (env w)))).
  - apply EffKeeps_lift; [apply Hh | exact Hw].
  - exact Hw.
Qed.

(** ** The queue bound in every reachable world *)

Lemma enqueued_bounded maxSize q m :
  Z.of_nat (List.length q) <= Z.max 1 maxSize ->
  Z.of_nat (List.length (enqueued maxSize q m)) <= Z.max 1 maxSize.
Proof.
  intros Hq. unfold enqueued.
  destruct (Z.geb_spec (Z.of_nat (List.length q)) maxSize) as [Hfull|Hroom];
    rewrite length_app; cbn [List.length].
  - rewrite length_tl. lia.
  - lia.
Qed.

Lemma QueueBounded_queueMessage m w :
  QueueBounded w -> QueueBounded (queueMessage m w).
Proof.
  unfold QueueBounded. rewrite messageQueue_queueMessage.
  apply enqueued_bounded.
Qed.

Lemma QueueBounded_sendMessage m : EffKeeps QueueBounded (sendMessage m).
Proof.
  intros w Hw. unfold sendMessage.
  destruct (openSocket w) as [sock|].
  - destruct (sendThrows (env w) m); exact Hw.
  - destruct (MessageQueue.enabled _); cbn [snd];
      [apply QueueBounded_queueMessage|]; exact Hw.
Qed.

Lemma QueueBounded_empty w : QueueBounded (set_messageQueue [] w).
Proof. unfold QueueBounded. cbn. lia. Qed.

Lemma QueueBounded_same w w' :
  messageQueue (this w') = messageQueue (this w) -> env w' = env w ->
  QueueBounded w -> QueueBounded w'.
Proof. unfold QueueBounded, queueLimit. intros -> ->. exact (fun H => H). Qed.

(** ** Proof automation for the straight-line methods *)

Ltac break_match :=
  match goal with
  | |- context [match ?x with _ => _ end] =>
      lazymatch x with
      | context [match _ with _ => _ end] => fail
      | _ => destruct x eqn:?
      end
  end.

Ltac unfold_methods :=
  unfold connect, disconnect, cleanup, handleClose, handleReconnect,
    handleMessage, handleError, handlePong, onConnectionTimeout,
    onReconnectTimer, onHeartbeatTimeout, startHeartbeat, stopHeartbeat,
    updateConnectionStatus, emitError, setTimer, clearTimer, closeSocket.

Ltac frame_goal :=
  repeat first
    [ progress unfold_methods
    | progress cbn -[calculateBackoffDelay Z.add Z.geb]
    | break_match ].

Ltac frame := intros; frame_goal; try first [reflexivity | congruence].

(** A property kept by every method is kept by every turn of the event
    loop, hence along every run. *)
Lemma step_keeps (P : World -> Prop) :
  (forall w, P w -> P (connect w)) ->
  (forall w, P w -> P (disconnect w)) ->
  (forall m, EffKeeps P (sendMessage m)) ->
  EffKeeps P handleOpen ->
  (forall d w, P w -> P (handleMessage d w)) ->
  (forall w, P w -> P (handleError w)) ->
  (forall w, P w -> P (handleClose w)) ->
  (forall w, P w -> P (onConnectionTimeout w)) ->
  (forall w, P w -> P (onHeartbeatInterval w)) ->
  (forall w, P w -> P (onHeartbeatTimeout w)) ->
  (forall id w, P w -> P (clearTimer id w)) ->
  (forall ss w, P w -> P (set_sockets ss w)) ->
  forall w e, P w -> P (step w e).
Proof.
  intros Hconnect Hdisconnect Hsend Hopen Hmessage Herror Hclose
         Htimeout Hinterval Hhbtimeout Hclear Hsockets w e Hw.
  destruct e as [| |m|sock|sock data|sock|sock|id]; cbn [step].
  - apply Hconnect, Hw.
  - apply Hdisconnect, Hw.
  - apply Hsend, Hw.
  - destruct (nth_error (sockets (host w)) sock) as [s|]; [|exact Hw].
    destruct (readyState s); try exact Hw.
    apply Hclear. apply Hopen. apply Hsockets, Hw.
  - destruct (nth_error (sockets (host w)) sock) as [s|]; [|exact Hw].
    destruct (readyState s); try exact Hw; apply Hmessage, Hw.
  - destruct (nth_error (sockets (host w)) sock) as [s|]; [|exact Hw].
    destruct (readyState s); try exact Hw; apply Herror, Hw.
  - destruct (nth_error (sockets (host w)) sock) as [s|]; [|exact Hw].
    destruct (readyState s); try exact Hw; apply Hclose, Hsockets, Hw.
  - destruct (find_timer id w) as [t|]; [|exact Hw].
    destruct (kind t); cbn [runTimer].
    + apply Htimeout, Hclear, Hw.
    + apply Hconnect, Hclear, Hw.
    + apply Hinterval, Hw.
    + apply Hhbtimeout, Hclear, Hw.
Qed.

Lemma run_keeps (P : World -> Prop) :
  (forall w e, P w -> P (step w e)) ->
  forall es w, P w -> P (run w es).
Proof.
  intros Hstep. induction es as [|e es IH]; intros w Hw; [exact Hw|].
  cbn [run fold_left]. apply IH. apply Hstep, Hw.
Qed.

Lemma onHeartbeatInterval_keeps (P : World -> Prop) :
  (forall m, EffKeeps P (sendMessage m)) ->
  (forall d w, P w -> P (snd (setTimer HeartbeatTimeout d w))) ->
  (forall v w, P w -> P (set_heartbeatTimeoutTimer v w)) ->
  forall w, P w -> P (onHeartbeatInterval w).
Proof.
  intros Hs Ht Hf w Hw. unfold onHeartbeatInterval.
  destruct (isConnected w); [|exact Hw].
  unfold exec.
  pose proof (Hs (PingMessage (now (env w))) w Hw) as H1.
  set (w1 := snd (sendMessage (PingMessage (now (env w))) w)) in *.
  pose proof (Ht (Heartbeat.timeout (heartbeat (config (env w1)))) w1 H1) as H2.
  unfold setTimer in *. cbn [snd] in H2. apply Hf. exact H2.
Qed.

Ltac same_queue :=
  let H := fresh in
  intros ? H; refine (QueueBounded_same _ _ _ _ H); frame.

Lemma QueueBounded_step w e : QueueBounded w -> QueueBounded (step w e).
Proof.
  apply step_keeps.
  - same_queue.
  - same_queue.
  - apply QueueBounded_sendMessage.
  - apply EffKeeps_handleOpen.
    + apply QueueBounded_sendMessage.
    + intros w0 _. apply QueueBounded_empty.
    + same_queue.
    + same_queue.
    + same_queue.
  - intros d. same_queue.
  - same_queue.
  - same_queue.
  - same_queue.
  - apply onHeartbeatInterval_keeps.
    + apply QueueBounded_sendMessage.
    + intros d. same_queue.
    + intros v. same_queue.
  - same_queue.
  - intros id. same_queue.
  - intros ss. same_queue.
Qed.

(** The environment is never touched. *)
Lemma env_sendMessage (e0 : Env) m : EffKeeps (fun w => env w = e0) (sendMessage m).
Proof.
  intros w Hw. unfold sendMessage.
  destruct (openSocket w); [destruct (sendThrows (env w) m); exact Hw|].
  destruct (MessageQueue.enabled _); exact Hw.
Qed.

Ltac same_env :=
  let H := fresh in
  intros ? H; rewrite <- H; frame.

Lemma env_step w e : env (step w e) = env w.
Proof.
  apply (step_keeps (fun w' => env w' = env w)); try reflexivity.
  - same_env.
  - same_env.
  - apply env_sendMessage.
  - apply EffKeeps_handleOpen; try same_env. apply env_sendMessage.
  - intros d. same_env.
  - same_env.
  - same_env.
  - same_env.
  - apply onHeartbeatInterval_keeps.
    + apply env_sendMessage.
    + intros d. same_env.
    + intros v. same_env.
  - same_env.
  - intros id. same_env.
  - intros ss. same_env.
Qed.

Lemma env_run es : forall w, env (run w es) = env w.
Proof.
  induction es as [|e es IH]; intros w; [reflexivity|].
  cbn [run fold_left]. change (fold_left step es (step w e)) with (run (step w e) es).
  rewrite IH. apply env_step.
Qed.

(** X1: for an integer [messageQueue.maxSize], in every world the client can
    reach from [new WebSocketClient], by any interleaving of public calls,
    socket events and timer firings, the queue holds at most that many
    messages (at most one when the limit is below one). *)
Theorem queue_bounded_in_every_reachable_world (e : Env) (es : list Event) :
  Z.of_nat (List.length (messageQueue (this (run (newClient e) es))))
  <= Z.max 1 (MessageQueue.maxSize (messageQueueConfig (config e))).
Proof.
  assert (H : QueueBounded (run (newClient e) es)).
  { apply run_keeps; [intros w ev; apply QueueBounded_step|].
    unfold QueueBounded. cbn. lia. }
  unfold QueueBounded, queueLimit in H. rewrite env_run in H. exact H.
Qed.

(** ** The reconnect counter in every reachable world *)

Ltac counter :=
  unfold CounterBounded, attemptLimit in *; intros;
  repeat first
    [ progress unfold_methods
    | progress cbn -[calculateBackoffDelay Z.add Z.geb Z.max] in *
    | break_match ];
  repeat match goal with
         | H : (_ >=? _) = false |- _ => rewrite Z.geb_leb, Z.leb_gt in H
         end;
  try lia.

Lemma CounterBounded_sendMessage m : EffKeeps CounterBounded (sendMessage m).
Proof.
  intros w Hw. unfold sendMessage.
  destruct (openSocket w); [destruct (sendThrows (env w) m); exact Hw|].
  destruct (MessageQueue.enabled _); exact Hw.
Qed.

Lemma CounterBounded_step w e : CounterBounded w -> CounterBounded (step w e).
Proof.
  apply step_keeps.
  - counter.
  - counter.
  - apply CounterBounded_sendMessage.
  - apply EffKeeps_handleOpen; try solve [counter].
    apply CounterBounded_sendMessage.
  - counter.
  - counter.
  - counter.
  - counter.
  - apply onHeartbeatInterval_keeps; try solve [counter].
    apply CounterBounded_sendMessage.
  - counter.
  - counter.
  - counter.
Qed.

(** X2: for an integer [reconnect.maxAttempts], in every reachable world the
    reconnect counter lies between 0 and that limit (and is 0 when the limit
    is negative), whatever the interleaving of public calls, socket events
    and timer firings. *)
Theorem reconnect_counter_bounded_in_every_reachable_world
    (e : Env) (es : list Event) :
  0 <= reconnectAttempts (this (run (newClient e) es))
    <= Z.max 0 (Reconnect.maxAttempts (reconnect (config e))).
Proof.
  assert (H : CounterBounded (run (newClient e) es)).
  { apply run_keeps; [intros w ev; apply CounterBounded_step|].
    unfold CounterBounded. cbn. lia. }
  unfold CounterBounded, attemptLimit in H. rewrite env_run in H. exact H.
Qed.

(** ** Subscribers are never left with a stale status *)

Ltac in_sync :=
  unfold StatusInSync, statusSeen, getConnectionStatus in *; intros;
  repeat first
    [ progress unfold_methods
    | progress cbn -[calculateBackoffDelay Z.add Z.geb]
    | break_match ];
  rewrite ?fold_left_app; cbn -[calculateBackoffDelay Z.add Z.geb];
  rewrite ?fold_left_app; cbn -[calculateBackoffDelay Z.add Z.geb];
  rewrite ?fold_left_app; cbn -[calculateBackoffDelay Z.add Z.geb];
  first [assumption | reflexivity | idtac].

Lemma StatusInSync_sendMessage m : EffKeeps StatusInSync (sendMessage m).
Proof.
  intros w Hw. unfold sendMessage.
  destruct (openSocket w); [destruct (sendThrows (env w) m)|];
    [in_sync | in_sync |].
  destruct (MessageQueue.enabled _); exact Hw.
Qed.

Lemma StatusInSync_step w e : StatusInSync w -> StatusInSync (step w e).
Proof.
  apply step_keeps.
  - in_sync.
  - in_sync.
  - apply StatusInSync_sendMessage.
  - apply EffKeeps_handleOpen; try solve [in_sync].
    apply StatusInSync_sendMessage.
  - in_sync.
  - in_sync.
  - in_sync.
  - in_sync.
  - apply onHeartbeatInterval_keeps; try solve [in_sync].
    apply StatusInSync_sendMessage.
  - in_sync.
  - in_sync.
  - in_sync.
Qed.

(** X3: in every reachable world the status carried by the last
    connection-change dispatch is the status [getConnectionStatus()]
    returns: the object never changes its status without telling the
    subscribers, and before the first change both are the initial [idle]. *)
Theorem subscribers_hold_the_current_status (e : Env) (es : list Event) :
  statusSeen (trace (host (run (newClient e) es)))
  = getConnectionStatus (run (newClient e) es).
Proof.
  apply (run_keeps StatusInSync); [intros w ev; apply StatusInSync_step|].
  reflexivity.
Qed.

(** ** The heartbeat interval is never leaked *)

Lemma IntervalHeld_grow w w' :
  heartbeatTimer (this w') = heartbeatTimer (this w) ->
  (forall t, In t (timers (host w')) ->
             In t (timers (host w)) \/ kind t <> HeartbeatInterval) ->
  IntervalHeld w -> IntervalHeld w'.
Proof.
  unfold IntervalHeld. intros Hh Hin H. rewrite Forall_forall in *.
  intros t Ht Hk. rewrite Hh. destruct (Hin t Ht) as [Hold|Hne]; [|contradiction].
  apply H; assumption.
Qed.

Ltac use_membership :=
  repeat match goal with
         | Hin : In _ _ |- _ =>
             progress (rewrite ?in_app_iff, ?filter_In in Hin; cbn in Hin)
         end.

Ltac grow :=
  intros;
  match goal with
  | H : IntervalHeld ?w |- IntervalHeld _ =>
      refine (IntervalHeld_grow w _ _ _ H);
      [ frame
      | intro; frame_goal; intro; use_membership;
        intuition (subst; first [right; discriminate | auto]) ]
  end.

Lemma IntervalHeld_sendMessage m : EffKeeps IntervalHeld (sendMessage m).
Proof.
  intros w Hw. unfold sendMessage.
  destruct (openSocket w); [destruct (sendThrows (env w) m); exact Hw|].
  destruct (MessageQueue.enabled _); exact Hw.
Qed.

Lemma IntervalHeld_handleReconnect w :
  IntervalHeld w -> IntervalHeld (handleReconnect w).
Proof. grow. Qed.

Lemma IntervalHeld_connect w : IntervalHeld w -> IntervalHeld (connect w).
Proof. grow. Qed.

Lemma stopHeartbeat_no_interval w :
  IntervalHeld w ->
  heartbeatTimer (this (stopHeartbeat w)) = None
  /\ Forall (fun t => kind t <> HeartbeatInterval) (timers (host (stopHeartbeat w))).
Proof.
  unfold IntervalHeld. intros H. rewrite Forall_forall in H.
  split; [frame|].
  assert (Hgone : forall t,
            In t (timers (host (stopHeartbeat w))) ->
            In t (timers (host w))
            /\ heartbeatTimer (this w) <> Some (tid t)).
  { intros t. frame_goal; intros Hin; use_membership;
      (split; [tauto|]); try discriminate.
    all: intros Heq; injection Heq as Heq; subst;
      rewrite Nat.eqb_refl in *; cbn in *; intuition discriminate. }
  rewrite Forall_forall. intros t Hin Hk.
  destruct (Hgone t Hin) as [Hold Hne]. apply Hne. apply H; assumption.
Qed.

Lemma IntervalHeld_of_none w :
  heartbeatTimer (this w) = None ->
  Forall (fun t => kind t <> HeartbeatInterval) (timers (host w)) ->
  IntervalHeld w.
Proof.
  unfold IntervalHeld. intros _ H. eapply Forall_impl; [|exact H].
  cbn. intros t Hne Hk. contradiction.
Qed.

Lemma IntervalHeld_stopHeartbeat w :
  IntervalHeld w -> IntervalHeld (stopHeartbeat w).
Proof.
  intros H. destruct (stopHeartbeat_no_interval w H) as [Hn Hf].
  apply IntervalHeld_of_none; assumption.
Qed.

Lemma IntervalHeld_startHeartbeat w :
  IntervalHeld w -> IntervalHeld (startHeartbeat w).
Proof.
  intros H. destruct (stopHeartbeat_no_interval w H) as [Hn Hf].
  unfold startHeartbeat, setTimer. cbv zeta.
  generalize dependent (stopHeartbeat w). intros w1 Hn Hf.
  unfold IntervalHeld. cbn. apply Forall_app. split.
  - eapply Forall_impl; [|exact Hf]. cbn. intros t Hne Hk. contradiction.
  - repeat constructor.
Qed.

Lemma IntervalHeld_disconnect w :
  IntervalHeld w -> IntervalHeld (disconnect w).
Proof.
  intros H. unfold disconnect, cleanup. cbv zeta.
  assert (H1 : IntervalHeld (stopHeartbeat (set_isIntentionalClose true w))).
  { apply IntervalHeld_stopHeartbeat. exact H. }
  generalize dependent (stopHeartbeat (set_isIntentionalClose true w)).
  intros w1 H1. clear H. grow.
Qed.

Lemma IntervalHeld_handleClose w :
  IntervalHeld w -> IntervalHeld (handleClose w).
Proof.
  intros H. unfold handleClose. cbv zeta.
  pose proof (IntervalHeld_stopHeartbeat w H) as H1.
  generalize dependent (stopHeartbeat w). intros w1 H1. clear H. grow.
Qed.

Lemma IntervalHeld_step w e : IntervalHeld w -> IntervalHeld (step w e).
Proof.
  apply step_keeps.
  - apply IntervalHeld_connect.
  - apply IntervalHeld_disconnect.
  - apply IntervalHeld_sendMessage.
  - apply EffKeeps_handleOpen; try solve [grow].
    + apply IntervalHeld_sendMessage.
    + apply IntervalHeld_startHeartbeat.
  - grow.
  - grow.
  - apply IntervalHeld_handleClose.
  - grow.
  - apply onHeartbeatInterval_keeps; try solve [grow].
    apply IntervalHeld_sendMessage.
  - grow.
  - grow.
  - grow.
Qed.

Lemma noIntervalPending_grow w w' :
  (forall t, In t (timers (host w')) ->
             In t (timers (host w)) \/ kind t <> HeartbeatInterval) ->
  noIntervalPending w -> noIntervalPending w'.
Proof.
  unfold noIntervalPending. intros Hin H. rewrite Forall_forall in *.
  intros t Ht. destruct (Hin t Ht) as [Hold|Hne]; [apply H; exact Hold | exact Hne].
Qed.

Ltac grow_quiet :=
  intros;
  match goal with
  | H : noIntervalPending ?w |- noIntervalPending _ =>
      refine (noIntervalPending_grow w _ _ H);
      intro; frame_goal; intro; use_membership;
      intuition (subst; first [right; discriminate | auto])
  end.

Lemma disconnect_no_interval w :
  IntervalHeld w -> noIntervalPending (disconnect w).
Proof.
  intros H. unfold disconnect, cleanup. cbv zeta.
  assert (H1 : noIntervalPending (stopHeartbeat (set_isIntentionalClose true w))).
  { apply (stopHeartbeat_no_interval (set_isIntentionalClose true w)). exact H. }
  generalize dependent (stopHeartbeat (set_isIntentionalClose true w)).
  intros w1 H1. clear H. grow_quiet.
Qed.

Lemma handleClose_no_interval w :
  IntervalHeld w -> noIntervalPending (handleClose w).
Proof.
  intros H. unfold handleClose. cbv zeta.
  assert (H1 : noIntervalPending (stopHeartbeat w)).
  { apply (stopHeartbeat_no_interval w). exact H. }
  generalize dependent (stopHeartbeat w). intros w1 H1. clear H. grow_quiet.
Qed.

(** X4: the heartbeat interval is never leaked.  In every reachable world
    every pending heartbeat interval is the one held in
    [this.heartbeatTimer]; so after [disconnect()], and after the [close]
    event of any socket, no heartbeat interval is pending. *)
Theorem heartbeat_interval_never_leaks
    (e : Env) (es : list Event) (sock : SocketId) :
  IntervalHeld (run (newClient e) es)
  /\ noIntervalPending (disconnect (run (newClient e) es))
  /\ (forall s,
        nth_error (sockets (host (run (newClient e) es))) sock = Some s ->
        readyState s <> CLOSED ->
        noIntervalPending (step (run (newClient e) es) (Socket_close sock))).
Proof.
  assert (H : IntervalHeld (run (newClient e) es)).
  { apply run_keeps; [intros w ev; apply IntervalHeld_step|]. constructor. }
  split; [exact H|]. split; [apply disconnect_no_interval; exact H|].
  intros s Hs Hopen. cbn [step]. rewrite Hs.
  destruct (readyState s); try contradiction;
    apply handleClose_no_interval; exact H.
Qed.

(** ** disconnect() is final when nothing was leaked *)

Lemma onlyLiveAt_beyond (c : SocketId) ss : forall i,
  (c < i)%nat -> onlyLiveAt (Some c) i ss = true ->
  Forall (fun s => isLive (readyState s) = false) ss.
Proof.
  induction ss as [|s ss IH]; intros i Hc H; [constructor|].
  cbn [onlyLiveAt] in H. apply andb_prop in H. destruct H as [H1 H2].
  constructor; [|apply (IH (S i)); [lia | exact H2]].
  destruct (Nat.eqb_spec c i); [lia|].
  rewrite orb_false_r in H1. apply negb_true_iff in H1. exact H1.
Qed.

Lemma onlyLiveAt_none ss : forall i,
  onlyLiveAt None i ss = true ->
  Forall (fun s => isLive (readyState s) = false) ss.
Proof.
  induction ss as [|s ss IH]; intros i H; [constructor|].
  cbn [onlyLiveAt] in H. apply andb_prop in H. destruct H as [H1 H2].
  constructor; [|apply (IH (S i)); exact H2].
  rewrite orb_false_r in H1. apply negb_true_iff in H1. exact H1.
Qed.

Lemma onlyLiveAt_closed ss : forall i c,
  onlyLiveAt (Some (i + c)%nat) i ss = true ->
  Forall (fun s => isLive (readyState s) = false)
    (update_nth c
       (fun s => if isLive (readyState s) then set_readyState CLOSING s else s) ss).
Proof.
  induction ss as [|s ss IH]; intros i c H; [destruct c; constructor|].
  cbn [onlyLiveAt] in H. apply andb_prop in H. destruct H as [H1 H2].
  destruct c as [|c]; cbn [update_nth].
  - constructor.
    + destruct (isLive (readyState s)) eqn:E; [reflexivity | exact E].
    + apply (onlyLiveAt_beyond (i + 0)%nat ss (S i)); [lia | exact H2].
  - constructor.
    + destruct (Nat.eqb_spec (i + S c) i); [lia|].
      rewrite orb_false_r in H1. apply negb_true_iff in H1. exact H1.
    + apply (IH (S i) c). replace (S i + c)%nat with (i + S c)%nat by lia. exact H2.
Qed.

Lemma closeSocket_leaves_none_live w :
  onlyLiveAt (ws (this w)) 0 (sockets (host w)) = true ->
  Forall (fun s => isLive (readyState s) = false)
    (sockets (host (match ws (this w) with
                    | Some sock => set_ws None (closeSocket sock w)
                    | None => w
                    end))).
Proof.
  intros H. destruct (ws (this w)) as [c|].
  - cbn. apply (onlyLiveAt_closed _ 0%nat c). exact H.
  - apply (onlyLiveAt_none _ 0%nat). exact H.
Qed.

Lemma holds_excluded (field : option TimerId) (t : Timer) :
  holds field t = true ->
  match field with
  | Some id => negb (Nat.eqb (tid t) id) = false
  | None => False
  end.
Proof.
  destruct field as [id|]; cbn; [|discriminate].
  intros H. apply Nat.eqb_eq in H. subst. rewrite Nat.eqb_refl. reflexivity.
Qed.

Lemma tidy_disconnect_settled w : tidy w = true -> Settled (disconnect w).
Proof.
  unfold tidy. intros H. apply andb_prop in H. destruct H as [Ht Hs].
  rewrite forallb_forall in Ht.
  split; [frame|]. split; [frame|]. split; [frame|]. split.
  - unfold disconnect, cleanup. cbv zeta.
    set (w2 := match reconnectTimer (this (stopHeartbeat (set_isIntentionalClose true w))) with
               | Some id => _ | None => _ end).
    assert (H2 : onlyLiveAt (ws (this w2)) 0 (sockets (host w2)) = true).
    { subst w2. revert Hs. frame. }
    apply (closeSocket_leaves_none_live w2 H2).
  - rewrite Forall_forall. intros t.
    assert (Hkeep :
      In t (timers (host (disconnect w))) ->
      In t (timers (host w))
      /\ match reconnectTimer (this w) with
         | Some id => negb (Nat.eqb (tid t) id) = true
         | None => True
         end
      /\ match heartbeatTimer (this w) with
         | Some id => negb (Nat.eqb (tid t) id) = true
         | None => True
         end).
    { frame_goal; intro Hin; use_membership; tauto. }
    intros Hin. destruct (Hkeep Hin) as (Hold & Hr & Hh).
    specialize (Ht t Hold).
    destruct (kind t); [left; reflexivity | | | right; reflexivity];
      apply holds_excluded in Ht;
      [destruct (reconnectTimer (this w)) | destruct (heartbeatTimer (this w))];
      try contradiction; congruence.
Qed.

Lemma Settled_shrink w w' :
  isIntentionalClose (this w') = isIntentionalClose (this w) ->
  ws (this w') = ws (this w) ->
  state (connectionStatus (this w')) = Disconnected ->
  Forall (fun s => isLive (readyState s) = false) (sockets (host w')) ->
  (forall t, In t (timers (host w')) -> In t (timers (host w))) ->
  Settled w -> Settled w'.
Proof.
  intros Hi Hw Hst Hss Hts (Si & Sw & _ & _ & St).
  split; [congruence|]. split; [congruence|]. split; [exact Hst|].
  split; [exact Hss|]. rewrite Forall_forall in *. auto.
Qed.

Lemma update_nth_keeps_dead (f : Socket -> Socket) ss : forall n,
  (forall s, isLive (readyState (f s)) = false) ->
  Forall (fun s => isLive (readyState s) = false) ss ->
  Forall (fun s => isLive (readyState s) = false) (update_nth n f ss).
Proof.
  induction ss as [|s ss IH]; intros n Hf H; [destruct n; constructor|].
  inversion H as [|s' ss' Hs Hss]; subst.
  destruct n as [|n]; cbn [update_nth]; constructor; auto.
Qed.

Lemma length_update_nth {A} (f : A -> A) (l : list A) : forall n,
  List.length (update_nth n f l) = List.length l.
Proof.
  induction l as [|x l IH]; intros [|n]; cbn; try reflexivity.
  rewrite IH. reflexivity.
Qed.

Ltac absurd_branch :=
  try solve
    [ exfalso;
      try match goal with
          | Hs : state _ = _, Hb : ConnectionState_eqb _ _ = _ |- _ =>
              rewrite Hs in Hb; discriminate
          end;
      repeat match goal with
             | H : negb _ = true |- _ => apply negb_true_iff in H
             | H : negb _ = false |- _ => apply negb_false_iff in H
             end;
      congruence ].

Ltac shrink H :=
  refine (Settled_shrink _ _ _ _ _ _ _ H);
  [ frame; absurd_branch | frame; absurd_branch | frame; absurd_branch
  | frame; absurd_branch;
    first [ assumption
          | apply update_nth_keeps_dead; [reflexivity | assumption] ]
  | intro; frame_goal; absurd_branch; intro; use_membership; tauto ].

Ltac same_actions :=
  frame; absurd_branch; rewrite ?filter_app; cbn; rewrite ?app_nil_r; reflexivity.

Ltac settled_case H :=
  split;
  [ shrink H
  | split; [same_actions | frame; absurd_branch; apply length_update_nth] ].

Lemma Settled_step w ev :
  Settled w -> hostEvent ev = true ->
  Settled (step w ev)
  /\ filter isAction (trace (host (step w ev))) = filter isAction (trace (host w))
  /\ List.length (sockets (host (step w ev))) = List.length (sockets (host w)).
Proof.
  intros H Hev. pose proof H as (Si & Sw & Sst & Sss & Sts).
  assert (Hdead : forall sock s,
            nth_error (sockets (host w)) sock = Some s ->
            isLive (readyState s) = false).
  { intros sock s Hn. apply nth_error_In in Hn.
    rewrite Forall_forall in Sss. apply Sss. exact Hn. }
  destruct ev as [| |m|sock|sock data|sock|sock|id]; try discriminate; cbn [step].
  - destruct (nth_error (sockets (host w)) sock) as [s|] eqn:Hn; [|auto].
    pose proof (Hdead sock s Hn) as Hs.
    destruct (readyState s); try discriminate; auto.
  - destruct (nth_error (sockets (host w)) sock) as [s|] eqn:Hn; [|auto].
    pose proof (Hdead sock s Hn) as Hs.
    destruct (readyState s); try discriminate; auto.
    settled_case H.
  - destruct (nth_error (sockets (host w)) sock) as [s|] eqn:Hn; [|auto].
    pose proof (Hdead sock s Hn) as Hs.
    destruct (readyState s); try discriminate; auto.
    settled_case H.
  - destruct (nth_error (sockets (host w)) sock) as [s|] eqn:Hn; [|auto].
    pose proof (Hdead sock s Hn) as Hs.
    destruct (readyState s); try discriminate; auto.
    settled_case H.
  - destruct (find_timer id w) as [t|] eqn:Hf; [|auto].
    unfold find_timer in Hf. apply find_some in Hf. destruct Hf as [Hin _].
    rewrite Forall_forall in Sts.
    destruct (Sts t Hin) as [Hk|Hk]; rewrite Hk; cbn [runTimer];
      settled_case H.
Qed.

Lemma Settled_run es : forall w,
  Settled w -> forallb hostEvent es = true ->
  Settled (run w es)
  /\ filter isAction (trace (host (run w es))) = filter isAction (trace (host w))
  /\ List.length (sockets (host (run w es))) = List.length (sockets (host w)).
Proof.
  induction es as [|ev es IH]; intros w Hw Hes; [auto|].
  cbn [forallb] in Hes. apply andb_prop in Hes. destruct Hes as [Hev Hes].
  destruct (Settled_step w ev Hw Hev) as (H1 & Ht1 & Hl1).
  destruct (IH (step w ev) H1 Hes) as (H2 & Ht2 & Hl2).
  cbn [run fold_left]. change (fold_left step es (step w ev)) with (run (step w ev) es).
  rewrite Ht2, Hl2, Ht1, Hl1. auto.
Qed.

Lemma none_live (ss : list Socket) :
  Forall (fun s => isLive (readyState s) = false) ss ->
  filter (fun s => isLive (readyState s)) ss = [].
Proof.
  induction 1 as [|s ss Hs _ IH]; [reflexivity|].
  cbn [filter]. rewrite Hs. exact IH.
Qed.

Lemma none_reconnects (ts : list Timer) :
  Forall (fun t => kind t = ConnectionTimeout \/ kind t = HeartbeatTimeout) ts ->
  filter (fun t => match kind t with ReconnectTimer => true | _ => false end) ts = [].
Proof.
  induction 1 as [|t ts Ht _ IH]; [reflexivity|].
  cbn [filter]. destruct Ht as [-> | ->]; exact IH.
Qed.

(** X5: when every pending reconnect timer and heartbeat interval is the
    one the object holds and no socket but the current one is live, then
    after [disconnect()], whatever the host raises (timer firings, socket
    events), the status stays [disconnected], no transport is live, no
    reconnect timer is pending, and the object sends no frame, makes no
    socket and arms no timer. *)
Theorem disconnect_is_final_when_nothing_leaked
    (w : World) (es : list Event)
    (Htidy : tidy w = true)
    (Hes : forallb hostEvent es = true) :
  state (connectionStatus (this (run (disconnect w) es))) = Disconnected
  /\ liveTransports (run (disconnect w) es) = []
  /\ pendingReconnects (run (disconnect w) es) = []
  /\ filter isAction (trace (host (run (disconnect w) es)))
     = filter isAction (trace (host (disconnect w)))
  /\ List.length (sockets (host (run (disconnect w) es)))
     = List.length (sockets (host (disconnect w))).
Proof.
  pose proof (tidy_disconnect_settled w Htidy) as Hs.
  destruct (Settled_run es (disconnect w) Hs Hes)
    as ((_ & _ & Hst & Hss & Hts) & Htr & Hlen).
  split; [exact Hst|]. split; [apply none_live; exact Hss|].
  split; [apply none_reconnects; exact Hts|]. split; assumption.
Qed.

Lemma disconnect_is_final_when_nothing_leaked_witness :
  state (connectionStatus
           (this (run (disconnect (run Scenario.fresh [Call_connect; Socket_close 0%nat]))
                    [Timer_fire 2%nat; Timer_fire 1%nat; Socket_error 0%nat])))
  = Disconnected.
Proof.
  apply (disconnect_is_final_when_nothing_leaked
           (run Scenario.fresh [Call_connect; Socket_close 0%nat])
           [Timer_fire 2%nat; Timer_fire 1%nat; Socket_error 0%nat]);
    reflexivity.
Defined.

(** ** A connection timeout is counted twice *)



(** ** A missed pong *)

Lemma stopHeartbeat_fields w :
  heartbeatTimer (this (stopHeartbeat w)) = None
  /\ heartbeatTimeoutTimer (this (stopHeartbeat w)) = None
  /\ isIntentionalClose (this (stopHeartbeat w)) = isIntentionalClose (this w)
  /\ reconnectTimer (this (stopHeartbeat w)) = reconnectTimer (this w).
Proof. repeat split; frame. Qed.

(** X7: with reconnection enabled, at least one attempt left and no
    [disconnect()] under way, a missed pong ends in a reconnect, not in an
    error.  When the heartbeat timeout fires on the open current transport,
    the object only closes the socket: nothing is dispatched and the status
    is unchanged.  When the [close] event follows, both heartbeat handles are
    dropped, the status goes to [reconnecting] and one reconnect timer with
    the backoff delay of the next attempt is armed; no error event is
    dispatched. *)
Theorem missed_pong_leads_to_reconnect
    (w : World) (sock : SocketId) (s : Socket) (id : TimerId) (t : Timer)
    (Hws : ws (this w) = Some sock)
    (Hsock : nth_error (sockets (host w)) sock = Some s)
    (Hopen : readyState s = OPEN)
    (Hpending : find_timer id w = Some t)
    (Hkind : kind t = HeartbeatTimeout)
    (Hen : reconnectEnabled w = true)
    (Hint : isIntentionalClose (this w) = false)
    (Hleft : reconnectAttempts (this w) < attemptLimit w) :
  trace (host (step w (Timer_fire id))) = trace (host w)
  /\ getConnectionStatus (step w (Timer_fire id)) = getConnectionStatus w
  /\ nth_error (sockets (host (step w (Timer_fire id)))) sock
     = Some (set_readyState CLOSING s)
  /\ trace (host (run w [Timer_fire id; Socket_close sock]))
     = trace (host w)
       ++ [ConnectionChange
             (mkStatus Reconnecting None None
                (lastConnected (connectionStatus (this w))));
           Armed (mkTimer (nextTimer (host w)) ReconnectTimer
                    (backoffDelayAt w (reconnectAttempts (this w) + 1)));
           ConnectionChange
             (mkStatus Reconnecting None (Some (reconnectAttempts (this w) + 1))
                (lastConnected (connectionStatus (this w))))]
  /\ heartbeatTimer (this (run w [Timer_fire id; Socket_close sock])) = None
  /\ heartbeatTimeoutTimer (this (run w [Timer_fire id; Socket_close sock])) = None
  /\ reconnectTimer (this (run w [Timer_fire id; Socket_close sock]))
     = Some (nextTimer (host w)).
Proof.
  change (run w [Timer_fire id; Socket_close sock])
    with (step (step w (Timer_fire id)) (Socket_close sock)).
  assert (E1 : step w (Timer_fire id) = closeSocket sock (clearTimer id w)).
  { cbn [step]. rewrite Hpending, Hkind. cbn [runTimer]. unfold onHeartbeatTimeout.
    change (ws (this (clearTimer id w))) with (ws (this w)). rewrite Hws.
    reflexivity. }
  rewrite E1. clear E1.
  assert (Hs1 : nth_error (sockets (host (closeSocket sock (clearTimer id w)))) sock
                = Some (set_readyState CLOSING s)).
  { cbn. rewrite nth_error_update_nth, Hsock. cbn. rewrite Hopen. reflexivity. }
  split; [reflexivity|]. split; [reflexivity|]. split; [exact Hs1|].
  cbn [step]. rewrite Hs1. cbn [readyState set_readyState].
  set (w1 := set_sockets _ _).
  unfold handleClose. cbv zeta.
  destruct (stopHeartbeat_frame w1) as (He & Ht & Hn & Hss & Hw1 & Hq & Hc & Hr).
  destruct (stopHeartbeat_fields w1) as (Hh1 & Hh2 & Hi & Hrt).
  rewrite Hi. change (isIntentionalClose (this w1)) with (isIntentionalClose (this w)).
  rewrite Hint. cbn [negb].
  rewrite handleReconnect_schedules.
  - unfold setTimer. cbn -[Z.add backoffDelayAt].
    rewrite Ht, Hn, Hc, Hr, Hh1, Hh2.
    unfold backoffDelayAt, calculateBackoffDelay. cbn -[Z.add Math_min mul].
    rewrite He. subst w1. cbn -[Z.add Math_min mul].
    rewrite <- !app_assoc. repeat split; reflexivity.
  - unfold reconnectEnabled. cbn. rewrite He. exact Hen.
  - cbn. rewrite Hi. exact Hint.
  - unfold attemptLimit. cbn. rewrite He, Hr. exact Hleft.
Qed.

Lemma missed_pong_leads_to_reconnect_witness :
  trace (host (step (run Scenario.online [Timer_fire 2%nat]) (Timer_fire 3%nat)))
  = trace (host (run Scenario.online [Timer_fire 2%nat])).
Proof.
  apply (missed_pong_leads_to_reconnect
           (run Scenario.online [Timer_fire 2%nat]) 0%nat
           (mkSocket OPEN 1%nat) 3%nat
           (mkTimer 3%nat HeartbeatTimeout 5000%Q));
    first [reflexivity | discriminate].
Defined.

(** ** connect() does not reset the reconnect counter *)

(** X8: [connect()] leaves the reconnect counter as it is (only an [open]
    event resets it).  So once the attempts are used up, a [connect()] by
    the caller gets no automatic retry: if its socket closes without having
    opened, the status goes to [reconnecting] and at once to [error] with
    "Max reconnection attempts reached", and no timer is armed. *)
Theorem connect_after_exhaustion_gets_no_retry
    (w : World)
    (Hoff : openSocket w = None)
    (Hctor : ctorThrows (env w) = None)
    (Hen : reconnectEnabled w = true)
    (Hmax : attemptLimit w <= reconnectAttempts (this w)) :
  reconnectAttempts (this (connect w)) = reconnectAttempts (this w)
  /\ state (connectionStatus (this (connect w))) = Connecting
  /\ trace (host (closeCurrent (connect w)))
     = trace (host (connect w))
       ++ [ConnectionChange
             (mkStatus Reconnecting None None
                (lastConnected (connectionStatus (this w))));
           ConnectionChange
             (mkStatus Error (Some "Max reconnection attempts reached") None
                (lastConnected (connectionStatus (this w))))]
  /\ reconnectAttempts (this (closeCurrent (connect w))) = reconnectAttempts (this w).
Proof.
  rewrite (connect_opens w Hoff Hctor).
  split; [reflexivity|]. split; [reflexivity|].
  set (w0 := snd (setTimer _ _ _)).
  assert (Hws : ws (this w0) = Some (List.length (sockets (host w)))) by reflexivity.
  assert (Hss0 : sockets (host w0)
                 = sockets (host w) ++ [mkSocket CONNECTING (nextTimer (host w))])
    by reflexivity.
  unfold closeCurrent. rewrite Hws. cbn [step]. rewrite Hss0.
  rewrite nth_error_last. cbn [readyState]. rewrite update_nth_last.
  set (w1 := set_sockets _ _).
  unfold handleClose. cbv zeta.
  destruct (stopHeartbeat_frame w1) as (He & Ht & Hn & Hss & Hw1 & Hq & Hc & Hr).
  destruct (stopHeartbeat_fields w1) as (Hh1 & Hh2 & Hi & Hrt).
  rewrite Hi. change (isIntentionalClose (this w1)) with false. cbn [negb].
  rewrite handleReconnect_gives_up.
  - cbn. rewrite Ht, Hc, Hr. subst w1 w0. cbn. rewrite <- !app_assoc.
    split; reflexivity.
  - unfold reconnectEnabled. cbn. rewrite He. exact Hen.
  - cbn. rewrite Hi. reflexivity.
  - unfold attemptLimit. cbn. rewrite He, Hr. exact Hmax.
Qed.

Lemma connect_after_exhaustion_gets_no_retry_witness :
  state (connectionStatus
           (this (connect
                    (closeCurrent
                       (afterFailures (Scenario.envOf Scenario.cfgOneAttempt) 1)))))
  = Connecting.
Proof.
  apply (connect_after_exhaustion_gets_no_retry
           (closeCurrent (afterFailures (Scenario.envOf Scenario.cfgOneAttempt) 1)));
    first [reflexivity | vm_compute; discriminate].
Defined.

(** ** Flushing with no transport open *)

Lemma forEach_sendMessage_offline queue : forall w,
  openSocket w = None -> queueEnabled w = true ->
  forEach_sendMessage queue w
  = (Returns tt, fold_left (fun w' m => queueMessage m w') queue w).
Proof.
  induction queue as [|m queue IH]; intros w Hoff Hen; [reflexivity|].
  cbn [forEach_sendMessage fold_left]. unfold bind.
  rewrite (sendMessage_offline m w Hoff Hen).
  apply IH; [rewrite openSocket_queueMessage; exact Hoff | exact Hen].
Qed.

Lemma host_fold_queueMessage queue : forall w,
  host (fold_left (fun w' m => queueMessage m w') queue w) = host w.
Proof.
  induction queue as [|m queue IH]; intros w; [reflexivity|].
  cbn [fold_left]. rewrite IH. reflexivity.
Qed.

Lemma fold_enqueued_refills maxSize q : forall acc,
  Z.of_nat (List.length (acc ++ q)) <= maxSize
  \/ (acc = [] /\ (List.length q <= 1)%nat) ->
  fold_left (enqueued maxSize) q acc = acc ++ q.
Proof.
  induction q as [|m q IH]; intros acc H; cbn [fold_left].
  - rewrite app_nil_r. reflexivity.
  - destruct H as [H|[-> H]].
    + rewrite length_app in H. cbn [List.length] in H.
      replace (enqueued maxSize acc m) with (acc ++ [m]).
      * rewrite IH; [rewrite <- app_assoc; reflexivity|].
        left. rewrite <- app_assoc. cbn. rewrite length_app. cbn. lia.
      * unfold enqueued.
        destruct (Z.geb_spec (Z.of_nat (List.length acc)) maxSize); [lia|reflexivity].
    + destruct q as [|m' q]; [|cbn in H; lia].
      cbn. unfold enqueued. cbn. destruct (0 >=? maxSize); reflexivity.
Qed.

(** X9: a flush that finds no transport open loses nothing.  With queueing
    enabled and the queue within its bound, [flushMessageQueue] called while
    [this.ws] is not open puts every message back in the same order: it
    returns normally, the queue is what it was, and nothing reaches the
    host (no frame, no error event). *)
Theorem flush_without_open_transport_keeps_queue
    (w : World)
    (Hoff : openSocket w = None)
    (Hen : queueEnabled w = true)
    (Hbound : QueueBounded w) :
  fst (flushMessageQueue w) = Returns tt
  /\ messageQueue (this (exec flushMessageQueue w)) = messageQueue (this w)
  /\ host (exec flushMessageQueue w) = host w.
Proof.
  unfold exec, flushMessageQueue.
  destruct (messageQueue (this w)) as [|m q] eqn:Hq; [repeat split; auto|].
  rewrite forEach_sendMessage_offline; [| exact Hoff | exact Hen].
  cbn [fst snd]. split; [reflexivity|]. split.
  - rewrite messageQueue_fold_queueMessage.
    change (messageQueue (this (set_messageQueue [] w))) with (@nil ClientMessage).
    change (queueLimit (set_messageQueue [] w)) with (queueLimit w).
    apply (fold_enqueued_refills (queueLimit w) (m :: q) []).
    unfold QueueBounded in Hbound. rewrite Hq in Hbound. cbn [app].
    destruct (Z.le_gt_cases (Z.of_nat (List.length (m :: q))) (queueLimit w))
      as [Hle|Hgt]; [left; exact Hle | right; split; [reflexivity | lia]].
  - rewrite host_fold_queueMessage. reflexivity.
Qed.

Lemma flush_without_open_transport_keeps_queue_witness :
  messageQueue
    (this (exec flushMessageQueue
             (run Scenario.fresh
                [Call_sendMessage Scenario.A; Call_sendMessage Scenario.B])))
  = [Scenario.A; Scenario.B].
Proof.
  apply (flush_without_open_transport_keeps_queue
           (run Scenario.fresh
              [Call_sendMessage Scenario.A; Call_sendMessage Scenario.B]));
    first [reflexivity | vm_compute; discriminate].
Defined.

(** ** An unexpected close with reconnection switched off *)

(** X10: with [reconnect.enabled] false, an unintentional close still sets
    and dispatches the status [reconnecting], and that is all: no timer is
    armed, the counter and [this.reconnectTimer] are untouched, so the
    status stays [reconnecting] although nothing will reconnect. *)
Theorem close_with_reconnect_disabled_stays_reconnecting
    (w : World) (sock : SocketId) (s : Socket)
    (Hsock : nth_error (sockets (host w)) sock = Some s)
    (Hlive : readyState s <> CLOSED)
    (Hdis : reconnectEnabled w = false)
    (Hint : isIntentionalClose (this w) = false) :
  getConnectionStatus (step w (Socket_close sock))
  = mkStatus Reconnecting None None (lastConnected (connectionStatus (this w)))
  /\ trace (host (step w (Socket_close sock)))
     = trace (host w)
       ++ [ConnectionChange
             (mkStatus Reconnecting None None
                (lastConnected (connectionStatus (this w))))]
  /\ reconnectAttempts (this (step w (Socket_close sock))) = reconnectAttempts (this w)
  /\ reconnectTimer (this (step w (Socket_close sock))) = reconnectTimer (this w)
  /\ nextTimer (host (step w (Socket_close sock))) = nextTimer (host w).
Proof.
  assert (E : step w (Socket_close sock)
              = handleClose
                  (set_sockets
                     (update_nth sock (set_readyState CLOSED) (sockets (host w))) w)).
  { cbn [step]. rewrite Hsock. destruct (readyState s); try reflexivity. contradiction. }
  rewrite E. clear E. set (w1 := set_sockets _ _).
  unfold handleClose. cbv zeta.
  destruct (stopHeartbeat_frame w1) as (He & Ht & Hn & Hss & Hw1 & Hq & Hc & Hr).
  destruct (stopHeartbeat_fields w1) as (Hh1 & Hh2 & Hi & Hrt).
  rewrite Hi. change (isIntentionalClose (this w1)) with (isIntentionalClose (this w)).
  rewrite Hint. cbn [negb].
  unfold handleReconnect.
  change (env (updateConnectionStatus Reconnecting None None (stopHeartbeat w1)))
    with (env (stopHeartbeat w1)).
  rewrite He. change (env w1) with (env w).
  unfold reconnectEnabled in Hdis. rewrite Hdis. cbn [negb orb].
  unfold getConnectionStatus. cbn. rewrite Hc, Ht, Hr, Hrt, Hn.
  repeat split; reflexivity.
Qed.

Lemma close_with_reconnect_disabled_stays_reconnecting_witness :
  getConnectionStatus (step Cases.onlineNoReconnect (Socket_close 0%nat))
  = mkStatus Reconnecting None None (Some 42).
Proof.
  apply (close_with_reconnect_disabled_stays_reconnecting
           Cases.onlineNoReconnect 0%nat (mkSocket OPEN 1%nat));
    first [reflexivity | discriminate].
Defined.

(** ** Order of queued and live messages *)

Lemma openSocket_emitAll os : forall w, openSocket (emitAll os w) = openSocket w.
Proof.
  induction os as [|o os IH]; intros w; [reflexivity|].
  cbn [emitAll fold_left].
  change (fold_left (fun w' o' => emit o' w') os (emit o w))
    with (emitAll os (emit o w)).
  rewrite IH. reflexivity.
Qed.

Lemma env_emitAll os : forall w, env (emitAll os w) = env w.
Proof.
  induction os as [|o os IH]; intros w; [reflexivity|].
  cbn [emitAll fold_left].
  change (fold_left (fun w' o' => emit o' w') os (emit o w))
    with (emitAll os (emit o w)).
  rewrite IH. reflexivity.
Qed.

(** The world right after the [open] event of the current socket. *)
Lemma open_event_effect w sock s :
  ws (this w) = Some sock ->
  nth_error (sockets (host w)) sock = Some s ->
  readyState s = CONNECTING ->
  openSocket (step w (Socket_open sock)) = Some sock
  /\ env (step w (Socket_open sock)) = env w
  /\ messageQueue (this (step w (Socket_open sock))) = []
  /\ exists pre,
       trace (host (step w (Socket_open sock)))
       = trace (host w) ++ pre
         ++ map (sendOutcome (env w) sock) (messageQueue (this w)).
Proof.
  intros Hws Hsock Hconnecting.
  cbn [step]. rewrite Hsock, Hconnecting.
  pose proof (openSocket_after_open_event w sock s Hws Hsock) as Hopen.
  set (w0 := set_sockets
               (update_nth sock (set_readyState OPEN) (sockets (host w))) w) in *.
  unfold exec. rewrite (handleOpen_open w0 sock Hopen). cbn zeta.
  set (w1 := updateConnectionStatus Connected None None (set_reconnectAttempts 0 w0)).
  set (w2 := emit _ w1).
  set (w3 := if Heartbeat.enabled (heartbeat (config (env w0)))
             then startHeartbeat w2 else w2).
  assert (H3 :
    env w3 = env w
    /\ openSocket w3 = Some sock
    /\ messageQueue (this w3) = messageQueue (this w)
    /\ exists pre, trace (host w3) = trace (host w) ++ pre).
  { subst w3. change (env w0) with (env w).
    destruct (Heartbeat.enabled (heartbeat (config (env w)))).
    - destruct (startHeartbeat_frame w2) as (He & Ht & Ho & Hq & Hc & Hr).
      rewrite He, Ht, Ho, Hq. subst w2 w1 w0. cbn.
      split; [reflexivity|]. split; [exact Hopen|]. split; [reflexivity|].
      eexists. rewrite <- !app_assoc. reflexivity.
    - subst w2 w1 w0. cbn.
      split; [reflexivity|]. split; [exact Hopen|]. split; [reflexivity|].
      eexists. rewrite <- !app_assoc. reflexivity. }
  destruct H3 as (Henv3 & Hopen3 & Hq3 & pre & Htr3).
  destruct (flushMessageQueue_effect w3 sock Hopen3) as (Hempty & Htr & _).
  rewrite (flushMessageQueue_open w3 sock Hopen3) in *. cbn [snd] in *.
  split; [|split; [|split]].
  - destruct (messageQueue (this w3)); [exact Hopen3|].
    change (openSocket (clearTimer (clearsOnOpen s)
              (emitAll (map (sendOutcome (env w3) sock) (c :: l))
                 (set_messageQueue [] w3))))
      with (openSocket (emitAll (map (sendOutcome (env w3) sock) (c :: l))
                 (set_messageQueue [] w3))).
    rewrite openSocket_emitAll. exact Hopen3.
  - destruct (messageQueue (this w3)); [exact Henv3|].
    change (env (clearTimer (clearsOnOpen s)
              (emitAll (map (sendOutcome (env w3) sock) (c :: l))
                 (set_messageQueue [] w3))))
      with (env (emitAll (map (sendOutcome (env w3) sock) (c :: l))
                 (set_messageQueue [] w3))).
    rewrite env_emitAll. exact Henv3.
  - exact Hempty.
  - exists pre. cbn [clearTimer set_timers host trace].
    rewrite Htr, Htr3, Henv3, Hq3. rewrite <- !app_assoc. reflexivity.
Qed.

(** X11: messages queued while disconnected go out before anything sent
    after the [open] event.  When the current socket opens and the caller
    then sends [m], the trace shows the outcome of every queued message,
    oldest first, and the outcome of [m] after them; the queue is empty. *)
Theorem message_sent_after_open_follows_the_queue
    (w : World) (sock : SocketId) (s : Socket) (m : ClientMessage)
    (Hws : ws (this w) = Some sock)
    (Hsock : nth_error (sockets (host w)) sock = Some s)
    (Hconnecting : readyState s = CONNECTING) :
  (exists pre,
     trace (host (run w [Socket_open sock; Call_sendMessage m]))
     = trace (host w) ++ pre
       ++ map (sendOutcome (env w) sock) (messageQueue (this w))
       ++ [sendOutcome (env w) sock m])
  /\ messageQueue (this (run w [Socket_open sock; Call_sendMessage m])) = [].
Proof.
  destruct (open_event_effect w sock s Hws Hsock Hconnecting)
    as (Hopen & Henv & Hempty & pre & Htr).
  change (run w [Socket_open sock; Call_sendMessage m])
    with (step (step w (Socket_open sock)) (Call_sendMessage m)).
  set (w1 := step w (Socket_open sock)) in *. cbn [step].
  unfold exec. rewrite (sendMessage_open m _ sock Hopen). cbn [snd].
  split.
  - exists pre. cbn [emit host trace]. rewrite Htr, Henv.
    rewrite <- !app_assoc. reflexivity.
  - exact Hempty.
Qed.

Lemma message_sent_after_open_follows_the_queue_witness :
  messageQueue
    (this (run Scenario.backlog [Socket_open 0%nat; Call_sendMessage Scenario.A]))
  = [].
Proof.
  apply (message_sent_after_open_follows_the_queue
           Scenario.backlog 0%nat (mkSocket CONNECTING 1%nat) Scenario.A);
    reflexivity.
Defined.

(** ** lastConnected *)

Lemma step_keeps_unless_open (P : World -> Prop) :
  (forall w, P w -> P (connect w)) ->
  (forall w, P w -> P (disconnect w)) ->
  (forall m, EffKeeps P (sendMessage m)) ->
  (forall d w, P w -> P (handleMessage d w)) ->
  (forall w, P w -> P (handleError w)) ->
  (forall w, P w -> P (handleClose w)) ->
  (forall w, P w -> P (onConnectionTimeout w)) ->
  (forall w, P w -> P (onHeartbeatInterval w)) ->
  (forall w, P w -> P (onHeartbeatTimeout w)) ->
  (forall id w, P w -> P (clearTimer id w)) ->
  (forall ss w, P w -> P (set_sockets ss w)) ->
  forall w e, (forall sock, e <> Socket_open sock) -> P w -> P (step w e).
Proof.
  intros Hconnect Hdisconnect Hsend Hmessage Herror Hclose
         Htimeout Hinterval Hhbtimeout Hclear Hsockets w e Hne Hw.
  destruct e as [| |m|sock|sock data|sock|sock|id]; cbn [step].
  - apply Hconnect, Hw.
  - apply Hdisconnect, Hw.
  - apply Hsend, Hw.
  - exfalso. apply (Hne sock). reflexivity.
  - destruct (nth_error (sockets (host w)) sock) as [s|]; [|exact Hw].
    destruct (readyState s); try exact Hw; apply Hmessage, Hw.
  - destruct (nth_error (sockets (host w)) sock) as [s|]; [|exact Hw].
    destruct (readyState s); try exact Hw; apply Herror, Hw.
  - destruct (nth_error (sockets (host w)) sock) as [s|]; [|exact Hw].
    destruct (readyState s); try exact Hw; apply Hclose, Hsockets, Hw.
  - destruct (find_timer id w) as [t|]; [|exact Hw].
    destruct (kind t); cbn [runTimer].
    + apply Htimeout, Hclear, Hw.
    + apply Hconnect, Hclear, Hw.
    + apply Hinterval, Hw.
    + apply Hhbtimeout, Hclear, Hw.
Qed.

Lemma status_sendMessage (cs : ConnectionStatus) m :
  EffKeeps (fun w => connectionStatus (this w) = cs) (sendMessage m).
Proof.
  intros w Hw. unfold sendMessage.
  destruct (openSocket w); [destruct (sendThrows (env w) m); exact Hw|].
  destruct (MessageQueue.enabled _); exact Hw.
Qed.

Ltac same_status :=
  let H := fresh in
  intros ? H; rewrite <- H; frame.

Lemma lastConnected_step_unless_open w e :
  (forall sock, e <> Socket_open sock) ->
  lastConnected (connectionStatus (this (step w e)))
  = lastConnected (connectionStatus (this w)).
Proof.
  intros Hne.
  apply (step_keeps_unless_open
           (fun w' => lastConnected (connectionStatus (this w'))
                      = lastConnected (connectionStatus (this w))));
    try assumption; try reflexivity.
  - same_status.
  - same_status.
  - intros m w0 H0. rewrite <- H0. f_equal.
    apply (status_sendMessage (connectionStatus (this w0)) m w0). reflexivity.
  - intros d. same_status.
  - same_status.
  - same_status.
  - same_status.
  - apply onHeartbeatInterval_keeps.
    + intros m w0 H0. rewrite <- H0. f_equal.
      apply (status_sendMessage (connectionStatus (this w0)) m w0). reflexivity.
    + intros d. same_status.
    + intros v. same_status.
  - same_status.
  - intros id. same_status.
  - intros ss. same_status.
Qed.

Lemma handleOpen_status w :
  connectionStatus (this (snd (handleOpen w)))
  = mkStatus Connected None None (Some (now (env w))).
Proof.
  unfold handleOpen. unfold bind at 1. unfold lift at 1. unfold bind at 1. unfold lift at 1.
  set (w2 := updateConnectionStatus Connected None None (set_reconnectAttempts 0 w)).
  apply (EffKeeps_bind
           (fun w' => connectionStatus (this w')
                      = mkStatus Connected None None (Some (now (env w))))).
  - intros w0 H0. apply status_sendMessage. exact H0.
  - intros _. apply EffKeeps_bind.
    + intros w0 H0. destruct (Heartbeat.enabled _); [|exact H0].
      cbn [lift snd]. destruct (startHeartbeat_frame w0) as (_ & _ & _ & _ & Hc & _).
      rewrite Hc. exact H0.
    + intros _. apply EffKeeps_flush.
      * intros m. apply status_sendMessage.
      * intros w0 H0. exact H0.
  - reflexivity.
Qed.

Lemma status_after_open w sock :
  lastConnected (connectionStatus (this (step w (Socket_open sock))))
  = lastConnected (connectionStatus (this w))
  \/ getConnectionStatus (step w (Socket_open sock))
     = mkStatus Connected None None (Some (now (env w))).
Proof.
  cbn [step]. destruct (nth_error (sockets (host w)) sock) as [s|]; [|left; reflexivity].
  destruct (readyState s); try (left; reflexivity).
  right. unfold getConnectionStatus, exec. cbn [clearTimer set_timers this].
  rewrite handleOpen_status. reflexivity.
Qed.

(** X12: [lastConnected] changes only when a socket opens.  Every turn of
    the event loop other than an [open] event leaves it as it was; an [open]
    event either is not delivered or leaves the status
    [connected] with [lastConnected] set to the current time; and once set
    it is never cleared, whatever happens afterwards. *)
Theorem lastConnected_changes_only_on_open
    (w : World) (e : Event) (es : list Event) :
  ((forall sock, e <> Socket_open sock) ->
   lastConnected (connectionStatus (this (step w e)))
   = lastConnected (connectionStatus (this w)))
  /\ (forall sock,
        lastConnected (connectionStatus (this (step w (Socket_open sock))))
        = lastConnected (connectionStatus (this w))
        \/ getConnectionStatus (step w (Socket_open sock))
           = mkStatus Connected None None (Some (now (env w))))
  /\ (lastConnected (connectionStatus (this w)) <> None ->
      lastConnected (connectionStatus (this (run w es))) <> None).
Proof.
  split; [apply lastConnected_step_unless_open|].
  split; [apply status_after_open|].
  apply (run_keeps (fun w' => lastConnected (connectionStatus (this w')) <> None)).
  intros w0 e0 H0.
  assert (Hcase : (exists sock, e0 = Socket_open sock)
                  \/ (forall sock, e0 <> Socket_open sock)).
  { destruct e0; try (right; intros sock0; discriminate). left. eexists. reflexivity. }
  destruct Hcase as [[sock ->]|Hne].
  - destruct (status_after_open w0 sock) as [Hsame|Hnew].
    + rewrite Hsame. exact H0.
    + unfold getConnectionStatus in Hnew. rewrite Hnew. discriminate.
  - rewrite (lastConnected_step_unless_open w0 e0 Hne). exact H0.
Qed.

(** ** When the constructor throws *)

Lemma connect_throws w err :
  openSocket w = None -> ctorThrows (env w) = Some err ->
  connect w
  = handleReconnect
      (emitError err
         (updateConnectionStatus Error (Some err) None
            (updateConnectionStatus Connecting None None
               (set_isIntentionalClose false w)))).
Proof.
  unfold connect. intros -> Hc.
  cbn [env updateConnectionStatus emit set_connectionStatus set_isIntentionalClose].
  rewrite Hc. reflexivity.
Qed.

Lemma errorEvents_app tr tr' :
  errorEvents (tr ++ tr') = errorEvents tr ++ errorEvents tr'.
Proof. apply flat_map_app. Qed.

Lemma repeat_snoc {A} (x : A) n : repeat x n ++ [x] = repeat x (S n).
Proof. induction n as [|n IH]; cbn; [reflexivity|]. rewrite IH. reflexivity. Qed.

Lemma retrying_start e err :
  ctorThrows e = Some err ->
  Reconnect.enabled (reconnect (config e)) = true ->
  0 < Reconnect.maxAttempts (reconnect (config e)) ->
  Retrying e err 1 (connect (newClient e)).
Proof.
  intros Hc Hen Hn.
  rewrite (connect_throws (newClient e) err eq_refl Hc).
  rewrite handleReconnect_schedules; [| exact Hen | reflexivity | exact Hn].
  eexists _, _, _. split; [reflexivity|]. split; reflexivity.
Qed.

Lemma retrying_step e err k w :
  ctorThrows e = Some err ->
  Reconnect.enabled (reconnect (config e)) = true ->
  0 < k < Reconnect.maxAttempts (reconnect (config e)) ->
  Retrying e err k w -> Retrying e err (k + 1) (fireReconnect w).
Proof.
  intros Hc Hen Hk (cs & id & tr & -> & -> & Herr).
  unfold fireReconnect. cbn [reconnectTimer this step].
  unfold find_timer. cbn [host timers find tid]. rewrite Nat.eqb_refl.
  cbn [kind runTimer onReconnectTimer].
  rewrite (connect_throws _ err); [| reflexivity | exact Hc].
  rewrite handleReconnect_schedules;
    [| exact Hen | reflexivity
     | change (k < Reconnect.maxAttempts (reconnect (config e))); lia].
  unfold clearTimer. cbn -[Z.add backoffDelayAt]. rewrite Nat.eqb_refl.
  cbn -[Z.add backoffDelayAt].
  eexists _, _, _. split; [reflexivity|]. split; [reflexivity|].
  cbn -[Z.add backoffDelayAt errorEvents].
  rewrite !errorEvents_app, Herr. cbn. rewrite !app_nil_r.
  replace (Z.to_nat (k + 1)) with (S (Z.to_nat k)) by lia.
  apply repeat_snoc.
Qed.

Lemma retrying_iter e err n k :
  ctorThrows e = Some err ->
  Reconnect.enabled (reconnect (config e)) = true ->
  Reconnect.maxAttempts (reconnect (config e)) = Z.of_nat n ->
  (k < n)%nat ->
  Retrying e err (Z.of_nat k + 1) (retried e k).
Proof.
  intros Hc Hen Hn. induction k as [|k IH]; intros Hk.
  - apply retrying_start; [exact Hc | exact Hen | lia].
  - unfold retried. cbn [Nat.iter nat_rect].
    replace (Z.of_nat (S k) + 1) with (Z.of_nat k + 1 + 1) by lia.
    apply retrying_step; [exact Hc | exact Hen | lia | apply IH; lia].
Qed.

Lemma retrying_gives_up e err k w :
  ctorThrows e = Some err ->
  Reconnect.enabled (reconnect (config e)) = true ->
  Reconnect.maxAttempts (reconnect (config e)) <= k ->
  0 <= k ->
  Retrying e err k w ->
  getConnectionStatus (fireReconnect w)
  = mkStatus Error (Some "Max reconnection attempts reached") None None
  /\ sockets (host (fireReconnect w)) = []
  /\ timers (host (fireReconnect w)) = []
  /\ ws (this (fireReconnect w)) = None
  /\ errorEvents (trace (host (fireReconnect w))) = repeat err (S (Z.to_nat k)).
Proof.
  intros Hc Hen Hk Hpos (cs & id & tr & -> & -> & Herr).
  unfold fireReconnect. cbn [reconnectTimer this step].
  unfold find_timer. cbn [host timers find tid]. rewrite Nat.eqb_refl.
  cbn [kind runTimer onReconnectTimer].
  rewrite (connect_throws _ err); [| reflexivity | exact Hc].
  rewrite handleReconnect_gives_up; [| exact Hen | reflexivity | exact Hk].
  unfold clearTimer, getConnectionStatus. cbn -[errorEvents]. rewrite Nat.eqb_refl.
  cbn -[errorEvents].
  split; [reflexivity|]. split; [reflexivity|]. split; [reflexivity|].
  split; [reflexivity|].
  rewrite !errorEvents_app, Herr. cbn. rewrite !app_nil_r. apply repeat_snoc.
Qed.

(** X13: when [new WebSocket(url)] throws at every attempt, the client
    retries [maxAttempts] times and stops.  After [connect()] and [k] firings
    of the reconnect timer ([k < maxAttempts]) the status is [reconnecting]
    with attempt [k+1] and exactly one timer, of the backoff delay, is
    pending; after [maxAttempts] firings the status is [error] with
    "Max reconnection attempts reached", no timer is pending, no socket was
    ever made, and the error was dispatched [maxAttempts + 1] times. *)
Theorem constructor_failures_end_in_error
    (e : Env) (err : string) (n : nat)
    (Hctor : ctorThrows e = Some err)
    (Hen : Reconnect.enabled (reconnect (config e)) = true)
    (Hmax : Reconnect.maxAttempts (reconnect (config e)) = Z.of_nat n) :
  (forall k, (k < n)%nat ->
     getConnectionStatus (retried e k)
     = mkStatus Reconnecting None (Some (Z.of_nat k + 1)) None
     /\ exists id,
          timers (host (retried e k))
          = [mkTimer id ReconnectTimer
               (backoffDelayAt (newClient e) (Z.of_nat k + 1))])
  /\ getConnectionStatus (retried e n)
     = mkStatus Error (Some "Max reconnection attempts reached") None None
  /\ sockets (host (retried e n)) = []
  /\ timers (host (retried e n)) = []
  /\ ws (this (retried e n)) = None
  /\ errorEvents (trace (host (retried e n))) = repeat err (S n).
Proof.
  split.
  { intros k Hk.
    destruct (retrying_iter e err n k Hctor Hen Hmax Hk)
      as (cs & id & tr & -> & -> & _).
    split; [reflexivity | exists id; reflexivity]. }
  destruct n as [|n].
  - unfold retried. cbn [Nat.iter nat_rect].
    rewrite (connect_throws (newClient e) err eq_refl Hctor).
    rewrite handleReconnect_gives_up; [| exact Hen | reflexivity | ].
    + repeat split; reflexivity.
    + unfold attemptLimit. cbn. rewrite Hmax. reflexivity.
  - unfold retried. cbn [Nat.iter nat_rect].
    change (Nat.iter n fireReconnect (connect (newClient e))) with (retried e n).
    pose proof (retrying_iter e err (S n) n Hctor Hen Hmax (Nat.lt_succ_diag_r n)) as HR.
    destruct (retrying_gives_up e err (Z.of_nat n + 1) (retried e n) Hctor Hen)
      as (H1 & H2 & H3 & H4 & H5); [lia | lia | exact HR |].
    replace (S (Z.to_nat (Z.of_nat n + 1))) with (S (S n)) in H5 by lia.
    repeat split; assumption.
Qed.

Lemma constructor_failures_end_in_error_witness :
  getConnectionStatus (retried (Cases.envBadUrl Scenario.cfg) 4)
  = mkStatus Error (Some "Max reconnection attempts reached") None None.
Proof.
  apply (constructor_failures_end_in_error
           (Cases.envBadUrl Scenario.cfg) "The URL is invalid" 4%nat);
    reflexivity.
Defined.

(** ** Subscriptions *)

Lemma Set_delete_absent h s : ~ In h (Set_delete h s).
Proof.
  unfold Set_delete. rewrite filter_In. intros [_ H].
  rewrite Nat.eqb_refl in H. discriminate.
Qed.

Lemma Set_delete_other h h' s : In h' (Set_delete h s) -> In h' s.
Proof. unfold Set_delete. rewrite filter_In. tauto. Qed.

Lemma Set_add_other h h' s : h' <> h -> In h' (Set_add h s) -> In h' s.
Proof.
  unfold Set_add. destruct (Set_has h s); [tauto|].
  rewrite in_app_iff. cbn. intuition congruence.
Qed.

Lemma Set_has_In h s : Set_has h s = true <-> In h s.
Proof.
  unfold Set_has. rewrite existsb_exists. split.
  - intros (x & Hx & E). apply Nat.eqb_eq in E. subst. exact Hx.
  - intros H. exists h. split; [exact H | apply Nat.eqb_refl].
Qed.

Lemma Set_add_twice h s : Set_add h (Set_add h s) = Set_add h s.
Proof.
  unfold Set_add at 1.
  replace (Set_has h (Set_add h s)) with true; [reflexivity|].
  symmetry. apply Set_has_In. unfold Set_add.
  destruct (Set_has h s) eqn:E; [apply Set_has_In; exact E|].
  rewrite in_app_iff. right. left. reflexivity.
Qed.

Lemma Set_add_NoDup h s : NoDup s -> NoDup (Set_add h s).
Proof.
  intros H. unfold Set_add. destruct (Set_has h s) eqn:E; [exact H|].
  apply NoDup_app; [exact H | repeat constructor; intros [] | ].
  intros x Hx [<-|[]]. apply Set_has_In in Hx. congruence.
Qed.

Lemma deliver_only_to_recipients hs os h o :
  In (h, o) (deliver hs os) -> In h (recipients hs o).
Proof.
  unfold deliver. rewrite in_flat_map. intros (o' & _ & Hin).
  rewrite in_map_iff in Hin. destruct Hin as (h' & E & Hh).
  injection E as <- <-. exact Hh.
Qed.

Lemma recipients_registered hs h o :
  In h (recipients hs o) ->
  In h (Handlers.message hs) \/ In h (Handlers.error hs)
  \/ In h (Handlers.connectionChange hs).
Proof. destruct o; cbn; tauto. Qed.

Lemma act_unregistered h i a :
  subscribes h a = false -> unregistered h i ->
  unregistered h (act i a)
  /\ exists new, delivered (act i a) = delivered i ++ new
                 /\ forall o, ~ In (h, o) new.
Proof.
  intros Ha (Hm & He & Hc).
  assert (Hnone : exists new : list (HandlerId * Obs),
            delivered i = delivered i ++ new /\ forall o, ~ In (h, o) new).
  { exists []. rewrite app_nil_r. split; [reflexivity | intros o []]. }
  destruct a as [e|h'|h'|h'|h'|h'|h'|]; cbn [act subscribes] in *.
  - split; [split; [|split]; assumption|].
    eexists. split; [reflexivity|].
    intros o Hin. apply deliver_only_to_recipients in Hin.
    apply recipients_registered in Hin. tauto.
  - apply Nat.eqb_neq in Ha. split; [|exact Hnone].
    split; [|split]; cbn; try assumption.
    intros Hin. apply Set_add_other in Hin; [tauto | congruence].
  - split; [|exact Hnone]. split; [|split]; cbn; try assumption.
    intros Hin. apply Set_delete_other in Hin. tauto.
  - apply Nat.eqb_neq in Ha. split; [|exact Hnone].
    split; [|split]; cbn; try assumption.
    intros Hin. apply Set_add_other in Hin; [tauto | congruence].
  - split; [|exact Hnone]. split; [|split]; cbn; try assumption.
    intros Hin. apply Set_delete_other in Hin. tauto.
  - apply Nat.eqb_neq in Ha. split; [|exact Hnone].
    split; [|split]; cbn; try assumption.
    intros Hin. apply Set_add_other in Hin; [tauto | congruence].
  - split; [|exact Hnone]. split; [|split]; cbn; try assumption.
    intros Hin. apply Set_delete_other in Hin. tauto.
  - split; [|exact Hnone]. split; [|split]; cbn; tauto.
Qed.

Lemma acts_unregistered h l : forall i,
  forallb (fun a => negb (subscribes h a)) l = true ->
  unregistered h i ->
  exists new, delivered (acts i l) = delivered i ++ new
              /\ forall o, ~ In (h, o) new.
Proof.
  induction l as [|a l IH]; intros i Hl Hi.
  - exists []. rewrite app_nil_r. split; [reflexivity | intros o []].
  - cbn [forallb] in Hl. apply andb_prop in Hl. destruct Hl as [Ha Hl].
    apply negb_true_iff in Ha.
    destruct (act_unregistered h i a Ha Hi) as (Hi1 & new1 & E1 & Hn1).
    destruct (IH (act i a) Hl Hi1) as (new2 & E2 & Hn2).
    exists (new1 ++ new2). cbn [acts fold_left].
    change (fold_left act l (act i a)) with (acts (act i a) l).
    rewrite E2, E1, <- app_assoc. split; [reflexivity|].
    intros o Hin. rewrite in_app_iff in Hin. destruct Hin as [H|H].
    + exact (Hn1 o H).
    + exact (Hn2 o H).
Qed.

(** X14: unsubscribing silences a handler.  Subscribing the same handler
    twice registers it once, so calling the unsubscribe functions once takes
    it out of every set; and a handler that is in no set is not called for
    any dispatch, whatever happens to the object, until it is subscribed
    again. *)
Theorem unsubscribed_handler_receives_nothing
    (i : Instance) (h : HandlerId) (l : list Action)
    (Hl : forallb (fun a => negb (subscribes h a)) l = true) :
  eventHandlers (onMessage h (onMessage h i)) = eventHandlers (onMessage h i)
  /\ eventHandlers (onError h (onError h i)) = eventHandlers (onError h i)
  /\ eventHandlers (onConnectionChange h (onConnectionChange h i))
     = eventHandlers (onConnectionChange h i)
  /\ unregistered h (offMessage h (offError h (offConnectionChange h i)))
  /\ exists new,
       delivered (acts (offMessage h (offError h (offConnectionChange h i))) l)
       = delivered i ++ new
       /\ forall o, ~ In (h, o) new.
Proof.
  split; [cbn; rewrite Set_add_twice; reflexivity|].
  split; [cbn; rewrite Set_add_twice; reflexivity|].
  split; [cbn; rewrite Set_add_twice; reflexivity|].
  assert (Hu : unregistered h (offMessage h (offError h (offConnectionChange h i)))).
  { split; [|split]; cbn; apply Set_delete_absent. }
  split; [exact Hu|].
  apply (acts_unregistered h l _ Hl Hu).
Qed.

Lemma unsubscribed_handler_receives_nothing_witness :
  unregistered 7%nat
    (offMessage 7%nat
       (offError 7%nat
          (offConnectionChange 7%nat
             (onMessage 7%nat (onMessage 7%nat (newInstance (Scenario.envOf Scenario.cfg))))))).
Proof.
  apply (unsubscribed_handler_receives_nothing
           (onMessage 7%nat (onMessage 7%nat (newInstance (Scenario.envOf Scenario.cfg))))
           7%nat
           [Core Call_connect; Core (Socket_open 0%nat);
            Core (Socket_message 0%nat (Some (mkServerMessage "message" "hello")))]).
  reflexivity.
Defined.

(** ** destroy() *)

Lemma find_none_after_filter {A} (p q : A -> bool) (l : list A) :
  find p l = None -> find p (filter q l) = None.
Proof.
  induction l as [|x l IH]; cbn; [reflexivity|].
  destruct (p x) eqn:Ep; [discriminate|]. intros H.
  destruct (q x); cbn; [rewrite Ep|]; apply IH; exact H.
Qed.

Lemma deliver_to_nobody os : deliver (Handlers.mk [] [] []) os = [].
Proof.
  unfold deliver. induction os as [|o os IH]; [reflexivity|].
  cbn [flat_map]. rewrite IH. destruct o; reflexivity.
Qed.

Lemma act_without_handlers i a :
  isSubscribe a = false ->
  eventHandlers i = Handlers.mk [] [] [] ->
  eventHandlers (act i a) = Handlers.mk [] [] []
  /\ delivered (act i a) = delivered i.
Proof.
  intros Ha Hi.
  destruct a as [e|h|h|h|h|h|h|]; try discriminate; cbn [act].
  - unfold withHandlers. cbn. rewrite Hi, deliver_to_nobody, app_nil_r.
    split; reflexivity.
  - cbn. rewrite Hi. split; reflexivity.
  - cbn. rewrite Hi. split; reflexivity.
  - cbn. rewrite Hi. split; reflexivity.
  - split; reflexivity.
Qed.

Lemma acts_without_handlers l : forall i,
  forallb (fun a => negb (isSubscribe a)) l = true ->
  eventHandlers i = Handlers.mk [] [] [] ->
  delivered (acts i l) = delivered i.
Proof.
  induction l as [|a l IH]; intros i Hl Hi; [reflexivity|].
  cbn [forallb] in Hl. apply andb_prop in Hl. destruct Hl as [Ha Hl].
  apply negb_true_iff in Ha.
  destruct (act_without_handlers i a Ha Hi) as [H1 H2].
  cbn [acts fold_left]. change (fold_left act l (act i a)) with (acts (act i a) l).
  rewrite (IH (act i a) Hl H1). exact H2.
Qed.

(** X15: [destroy()] releases what the object holds and tells nobody.  The
    handles in the three timer fields are dropped and no longer pending, the
    socket reference and the queue are cleared, the close is marked
    intentional and the handler sets are emptied; the status is left as it
    was and nothing is dispatched.  Afterwards no handler is called again,
    whatever happens, unless one is subscribed anew. *)
Theorem destroy_releases_and_silences
    (i : Instance) (l : list Action)
    (Hl : forallb (fun a => negb (isSubscribe a)) l = true) :
  getConnectionStatus (core (destroy i)) = getConnectionStatus (core i)
  /\ trace (host (core (destroy i))) = trace (host (core i))
  /\ delivered (destroy i) = delivered i
  /\ eventHandlers (destroy i) = Handlers.mk [] [] []
  /\ messageQueue (this (core (destroy i))) = []
  /\ ws (this (core (destroy i))) = None
  /\ isIntentionalClose (this (core (destroy i))) = true
  /\ reconnectTimer (this (core (destroy i))) = None
  /\ heartbeatTimer (this (core (destroy i))) = None
  /\ heartbeatTimeoutTimer (this (core (destroy i))) = None
  /\ match reconnectTimer (this (core i)) with
     | Some id => find_timer id (core (destroy i)) = None
     | None => True
     end
  /\ match heartbeatTimer (this (core i)) with
     | Some id => find_timer id (core (destroy i)) = None
     | None => True
     end
  /\ match heartbeatTimeoutTimer (this (core i)) with
     | Some id => find_timer id (core (destroy i)) = None
     | None => True
     end
  /\ delivered (acts (destroy i) l) = delivered i.
Proof.
  assert (Hlast : delivered (acts (destroy i) l) = delivered i).
  { rewrite (acts_without_handlers l (destroy i) Hl); reflexivity. }
  unfold destroy. cbn [core eventHandlers delivered].
  unfold getConnectionStatus.
  split; [frame|]. split; [frame|]. split; [reflexivity|].
  split; [reflexivity|]. split; [reflexivity|]. split; [frame|].
  split; [frame|]. split; [frame|]. split; [frame|]. split; [frame|].
  split; [|split; [|split; [|exact Hlast]]].
  all: destruct (core i) as [e [w0 cs ra rt ic ht htt q] [ss ts nt tr]];
    unfold cleanup, stopHeartbeat; cbn;
    destruct ht as [a|]; cbn; destruct htt as [b|]; cbn;
    destruct rt as [r|]; cbn; destruct w0 as [k|]; cbn;
    try exact I; unfold find_timer; cbn;
    repeat first [apply find_after_filter | apply find_none_after_filter].
Qed.

Lemma destroy_releases_and_silences_witness :
  delivered
    (acts (destroy (acts (newInstance (Scenario.envOf Scenario.cfg))
                      [Subscribe_connectionChange 1%nat; Core Call_connect;
                       Core (Socket_open 0%nat)]))
       [Core (Socket_close 0%nat)])
  = delivered
      (acts (newInstance (Scenario.envOf Scenario.cfg))
         [Subscribe_connectionChange 1%nat; Core Call_connect;
          Core (Socket_open 0%nat)]).
Proof.
  apply (destroy_releases_and_silences
           (acts (newInstance (Scenario.envOf Scenario.cfg))
              [Subscribe_connectionChange 1%nat; Core Call_connect;
               Core (Socket_open 0%nat)])
           [Core (Socket_close 0%nat)]).
  reflexivity.
Defined.

(** ** The connection timeout of an earlier attempt *)

Lemma find_app_some {A} (p : A -> bool) (l l' : list A) (x : A) :
  find p l = Some x -> find p (l ++ l') = Some x.
Proof.
  induction l as [|a l IH]; cbn; [discriminate|].
  destruct (p a); [auto|exact IH].
Qed.

(** X16: the connection timeout of a failed attempt outlives the failure
    and cuts the next attempt short.  The [close] event does not cancel the
    timeout armed by [connect()], and its callback closes whatever socket is
    behind [this.ws] when it fires.  Take a client that is connecting with
    the counter at k (every earlier socket closed, only connection timeouts
    pending), reconnection enabled, a constructor that does not throw and at
    least two attempts left (k + 2 <= maxAttempts).  When the attempt fails
    and its reconnect timer fires, a connection timeout that was pending
    before is still pending and the status is [connecting] on a new socket;
    when that old timeout fires then, the new socket is closed, the counter
    stands at k + 2 and the status is [reconnecting]. *)
Theorem stale_timeout_closes_the_next_attempt
    (e : Env) (k : Z) (w : World) (id : TimerId) (t : Timer)
    (Hat : Attempting e k w)
    (Hen : Reconnect.enabled (reconnect (config e)) = true)
    (Hctor : ctorThrows e = None)
    (Hleft : k + 2 <= Reconnect.maxAttempts (reconnect (config e)))
    (Hpending : find_timer id w = Some t) :
  find_timer id (failedAttempt w) = Some t
  /\ kind t = ConnectionTimeout
  /\ state (connectionStatus (this (failedAttempt w))) = Connecting
  /\ ws (this (failedAttempt w)) = Some (List.length (sockets (host w)))
  /\ nth_error (sockets (host (failedAttempt w))) (List.length (sockets (host w)))
     = Some (mkSocket CONNECTING (S (nextTimer (host w))))
  /\ nth_error (sockets (host (step (failedAttempt w) (Timer_fire id))))
       (List.length (sockets (host w)))
     = Some (mkSocket CLOSING (S (nextTimer (host w))))
  /\ reconnectAttempts (this (step (failedAttempt w) (Timer_fire id))) = k + 2
  /\ state (connectionStatus (this (step (failedAttempt w) (Timer_fire id))))
     = Reconnecting.
Proof.
  destruct Hat as (pre & t0 & cs & rt & q & ts & nt & tr & -> & Hpre & Hts & Hcs).
  assert (Hlt : Forall (fun x => (tid x < nt)%nat) ts).
  { eapply Forall_impl; [|exact Hts]. cbn. intros x [_ Hx]. exact Hx. }
  unfold find_timer in Hpending. cbn [host timers] in Hpending.
  assert (Hk : kind t = ConnectionTimeout).
  { apply find_some in Hpending. destruct Hpending as [Hin _].
    rewrite Forall_forall in Hts. apply (Hts t Hin). }
  destruct (closeCurrent_schedules e pre t0 cs k rt q ts nt tr Hen) as [tr1 E1]; [lia|].
  unfold failedAttempt. rewrite E1.
  destruct (fireReconnect_connects e pre t0
              (mkStatus Reconnecting None (Some (k + 1)) (lastConnected cs))
              (k + 1) q ts nt tr1 (backoffDelayAt (newClient e) (k + 1)) Hctor Hlt)
    as [tr2 E2].
  rewrite E2. clear E1 E2.
  assert (Hf : find (fun x => Nat.eqb (tid x) id)
                 (ts ++ [mkTimer (S nt) ConnectionTimeout 10000%Q]) = Some t).
  { apply find_app_some. exact Hpending. }
  cbn [host sockets this ws connectionStatus state timers nextTimer].
  assert (Hlen : List.length (pre ++ [mkSocket CONNECTING t0])
                 = List.length (pre ++ [mkSocket CLOSED t0])).
  { rewrite !length_app. reflexivity. }
  rewrite Hlen.
  split; [exact Hf|]. split; [exact Hk|]. split; [reflexivity|].
  split; [reflexivity|].
  split; [apply nth_error_last|].
  cbn [step]. unfold find_timer. cbn [host timers]. rewrite Hf, Hk.
  cbn [runTimer]. unfold onConnectionTimeout.
  cbn [clearTimer set_timers this connectionStatus state ConnectionState_eqb ws].
  rewrite handleReconnect_schedules; [| exact Hen | reflexivity | ].
  - cbn -[Z.add backoffDelayAt nth_error update_nth].
    split; [|split; [lia | reflexivity]].
    rewrite nth_error_update_nth, nth_error_last. reflexivity.
  - change (k + 1 < Reconnect.maxAttempts (reconnect (config e))). lia.
Qed.

Lemma stale_timeout_closes_the_next_attempt_witness :
  nth_error
    (sockets
       (host (step (failedAttempt (connect (newClient (Scenario.envOf Scenario.cfg))))
                (Timer_fire 1%nat))))
    (List.length (sockets (host (connect (newClient (Scenario.envOf Scenario.cfg))))))
  = Some (mkSocket CLOSING
            (S (nextTimer (host (connect (newClient (Scenario.envOf Scenario.cfg))))))).
Proof.
  apply (stale_timeout_closes_the_next_attempt
           (Scenario.envOf Scenario.cfg) 0
           (connect (newClient (Scenario.envOf Scenario.cfg)))
           1%nat (mkTimer 1%nat ConnectionTimeout 10000%Q)).
  - exists [], 1%nat, (mkStatus Connecting None None None), None, [],
           [mkTimer 1%nat ConnectionTimeout 10000%Q], 2%nat,
           (trace (host (connect (newClient (Scenario.envOf Scenario.cfg))))).
    split; [reflexivity|]. split; [constructor|].
    split; [repeat constructor | reflexivity].
  - reflexivity.
  - reflexivity.
  - discriminate.
  - reflexivity.
Defined.
